(** * prysm.colorimetry: a shallow embedding and its properties

    The Python 3 module [prysm/colorimetry.py] is embedded function by
    function, under the names it has in the source.
    - Python outcomes are values of [result]: a returned value or a raised
      exception.
    - A [numpy.ndarray] is a shape together with its row-major buffer; a
      Python scalar used in array arithmetic is a 0-d array, and the
      element-wise operators broadcast as numpy does.
    - Array elements range over a [Number] type.  The instance the code runs
      with is IEEE-754 binary64 ([float], the kernel's primitive floats);
      the instance [Qc] (canonical rationals) is exact arithmetic and
      separates what is algebra from what is rounding.  Integer arrays are
      not covered.
    - Functions that read the module namespace run in the monad [M], whose
      state is the set of names bound at module level.  The colour package
      is a record of functions, [colour_module]; the plotting functions,
      which only drive matplotlib, are left out. *)

From Equations Require Import Equations.
From Stdlib Require Import String ZArith List Bool Lia Arith Floats QArith Qcanon Field Sorted.
Import ListNotations.

Set Implicit Arguments.
Local Open Scope string_scope.
Local Open Scope list_scope.
Local Open Scope nat_scope.

(* ===================================================================== *)
(** * Python: results, exceptions, the module namespace                   *)
(* ===================================================================== *)

Inductive exn : Type :=
| ImportError (msg : string)
| NameError (msg : string)
| ValueError (msg : string)
| IndexError (msg : string)
| TypeError (msg : string).

Inductive result (T : Type) : Type :=
| Ok (v : T)
| Raise (e : exn).
Arguments Ok {T} v.
Arguments Raise {T} e.

Definition bind {T U : Type} (r : result T) (k : T -> result U) : result U :=
  match r with
  | Ok v => k v
  | Raise e => Raise e
  end.

Notation "x <- r ;; k" := (bind r (fun x => k))
  (at level 61, r at next level, right associativity).
Notation "' p <- r ;; k" := (bind r (fun p => k))
  (at level 61, p pattern, r at next level, right associativity).

(** The module namespace: the names [globals()] has a key for. *)
Definition globals := list string.

Definition in_globals (name : string) (g : globals) : bool :=
  existsb (String.eqb name) g.

(** Code that runs against the module namespace. *)
Definition M (T : Type) : Type := globals -> result T * globals.

Definition ret {T : Type} (v : T) : M T := fun g => (Ok v, g).
Definition raise {T : Type} (e : exn) : M T := fun g => (Raise e, g).
Definition lift {T : Type} (r : result T) : M T := fun g => (r, g).
Definition mbind {T U : Type} (m : M T) (k : T -> M U) : M U :=
  fun g => match m g with
           | (Ok v, g') => k v g'
           | (Raise e, g') => (Raise e, g')
           end.

Notation "x <~ m ;; k" := (mbind m (fun x => k))
  (at level 61, m at next level, right associativity).
Notation "' p <~ m ;; k" := (mbind m (fun p => k))
  (at level 61, p pattern, m at next level, right associativity).

(** [globals()]. *)
Definition get_globals : M globals := fun g => (Ok g, g).

(** A module-level binding: [import name], [def name], [name = ...]. *)
Definition bind_global (name : string) : M unit := fun g => (Ok tt, name :: g).

(** [try: body except ImportError: handler]. *)
Definition try_except_ImportError {T : Type} (body handler : M T) : M T :=
  fun g => match body g with
           | (Raise (ImportError _), g') => handler g'
           | other => other
           end.

(** Evaluating a global name: [NameError] when it is not bound. *)
Definition load_global (name : string) : M unit :=
  fun g => if in_globals name g then (Ok tt, g)
           else (Raise (NameError ("name '" ++ name ++ "' is not defined")%string), g).

(** Tuple unpacking into three targets, [a, b, c = items]. *)
Definition unpack3 {T : Type} (items : list T) : result (T * T * T) :=
  match items with
  | [] => Raise (ValueError "not enough values to unpack (expected 3, got 0)")
  | [_] => Raise (ValueError "not enough values to unpack (expected 3, got 1)")
  | [_; _] => Raise (ValueError "not enough values to unpack (expected 3, got 2)")
  | [a; b; c] => Ok (a, b, c)
  | _ => Raise (ValueError "too many values to unpack (expected 3)")
  end.

(** [t[-1]] on a tuple. *)
Definition tuple_last {T : Type} (t : list T) : result T :=
  match rev t with
  | [] => Raise (IndexError "tuple index out of range")
  | v :: _ => Ok v
  end.

(* ===================================================================== *)
(** * Numbers                                                             *)
(* ===================================================================== *)

(** What the conversions ask of an element type.  [of_int] converts a Python
    [int] literal; the comparisons are IEEE comparisons (false on NaN). *)
Class Number (A : Type) : Type := {
  of_int : Z -> A;
  add : A -> A -> A;
  sub : A -> A -> A;
  mul : A -> A -> A;
  div : A -> A -> A;
  eqb : A -> A -> bool;
  ltb : A -> A -> bool;
  leb : A -> A -> bool
}.

(** [x ** n] for an integer literal [n]: numpy hands a float to the
    platform's [pow], which is not part of the source; it is an operation of
    the element type supplied apart from [Number]. *)
Class Power (A : Type) : Type := { pow : A -> Z -> A }.

Declare Scope num_scope.
Delimit Scope num_scope with num.
Notation "$ z" := (of_int z%Z) (at level 9, z at level 9, format "$ z") : num_scope.
Infix "+" := add : num_scope.
Infix "-" := sub : num_scope.
Infix "*" := mul : num_scope.
Infix "/" := div : num_scope.

Definition isnan {A : Type} `{Number A} (v : A) : bool := negb (eqb v v).

(** binary64: the arithmetic numpy's float64 and Python's float run on. *)
#[export] Instance float_Number : Number float := {
  of_int z := match z with
              | Z0 => PrimFloat.zero
              | Zpos _ => PrimFloat.of_uint63 (Uint63.of_Z z)
              | Zneg p => PrimFloat.opp (PrimFloat.of_uint63 (Uint63.of_Z (Zpos p)))
              end;
  add := PrimFloat.add;
  sub := PrimFloat.sub;
  mul := PrimFloat.mul;
  div := PrimFloat.div;
  eqb := PrimFloat.eqb;
  ltb := PrimFloat.ltb;
  leb := PrimFloat.leb
}.

(** Exact rational arithmetic. *)
#[export] Instance Qc_Number : Number Qc := {
  of_int z := Q2Qc (inject_Z z);
  add := Qcplus;
  sub := Qcminus;
  mul := Qcmult;
  div := Qcdiv;
  eqb a b := if Qc_eq_dec a b then true else false;
  ltb a b := match (a ?= b)%Qc with Lt => true | _ => false end;
  leb a b := match (a ?= b)%Qc with Gt => false | _ => true end
}.

#[export] Instance Qc_Power : Power Qc := {
  pow a n := match n with
             | Zneg p => Qcinv (Qcpower a (Pos.to_nat p))
             | _ => Qcpower a (Z.to_nat n)
             end
}.

(* ===================================================================== *)
(** * numpy                                                               *)
(* ===================================================================== *)

Record ndarray (A : Type) : Type := mk_ndarray {
  shape : list nat;
  data : list A
}.
Arguments mk_ndarray {A} shape data.

Section Arrays.
Context {A : Type}.

(** Number of elements a shape holds. *)
Definition size_of (s : list nat) : nat := fold_right Nat.mul 1 s.

Definition well_formed (a : ndarray A) : Prop :=
  length (data a) = size_of (shape a).

Definition ndim (a : ndarray A) : nat := length (shape a).

(** A Python scalar seen by numpy: a 0-d array. *)
Definition scalar (v : A) : ndarray A := mk_ndarray [] [v].

(** The first [count] consecutive blocks of [n] elements of a buffer. *)
Fixpoint chunk (n : nat) (l : list A) (count : nat) : list (list A) :=
  match count with
  | 0 => []
  | S count' => firstn n l :: chunk n (skipn n l) count'
  end.

Definition pick (k : nat) (row : list A) : list A :=
  match nth_error row k with
  | Some v => [v]
  | None => []
  end.

(** [a[..., k]]: component [k] of the trailing axis. *)
Definition getitem_last (a : ndarray A) (k : nat) : result (ndarray A) :=
  match rev (shape a) with
  | [] => Raise (IndexError "too many indices for array")
  | n :: outer =>
      if k <? n
      then Ok (mk_ndarray (rev outer)
                          (flat_map (pick k) (chunk n (data a) (size_of outer))))
      else Raise (IndexError "index is out of bounds for axis")
  end.

(** Iterating an array walks its first axis. *)
Definition iter_first (a : ndarray A) : result (list (ndarray A)) :=
  match shape a with
  | [] => Raise (TypeError "iteration over a 0-d array")
  | n :: inner =>
      Ok (map (mk_ndarray inner) (chunk (size_of inner) (data a) n))
  end.

Definition shape_eqb (s t : list nat) : bool :=
  (length s =? length t) && forallb (fun p => fst p =? snd p) (combine s t).

(** [np.stack(arrays, axis=axis)] for [0 <= axis]. *)
Definition np_stack (arrays : list (ndarray A)) (axis : nat) : result (ndarray A) :=
  match arrays with
  | [] => Raise (ValueError "need at least one array to stack")
  | a0 :: others =>
      if negb (forallb (fun a => shape_eqb (shape a) (shape a0)) others)
      then Raise (ValueError "all input arrays must have the same shape")
      else if ndim a0 <? axis
      then Raise (IndexError "axis is out of bounds for array")
      else
        let outer := size_of (firstn axis (shape a0)) in
        let inner := size_of (skipn axis (shape a0)) in
        Ok (mk_ndarray
              (firstn axis (shape a0) ++ length arrays :: skipn axis (shape a0))
              (flat_map
                 (fun o => flat_map
                             (fun a => nth o (chunk inner (data a) outer) [])
                             arrays)
                 (seq 0 outer)))
  end.

(** [a[low:high]] for non-negative bounds: a slice of the first axis. *)
Definition getslice (a : ndarray A) (low high : nat) : result (ndarray A) :=
  match shape a with
  | [] => Raise (IndexError "too many indices for array")
  | n :: inner =>
      let lo := Nat.min low n in
      let hi := Nat.max lo (Nat.min high n) in
      Ok (mk_ndarray ((hi - lo) :: inner)
                     (firstn ((hi - lo) * size_of inner)
                             (skipn (lo * size_of inner) (data a))))
  end.
End Arrays.

(** ** Broadcasting and element-wise operations *)

Fixpoint broadcast_rev (r1 r2 : list nat) {struct r1} : option (list nat) :=
  match r1 with
  | [] => Some r2
  | d1 :: t1 =>
      match r2 with
      | [] => Some r1
      | d2 :: t2 =>
          match broadcast_rev t1 t2 with
          | None => None
          | Some t =>
              if d1 =? d2 then Some (d1 :: t)
              else if d1 =? 1 then Some (d2 :: t)
              else if d2 =? 1 then Some (d1 :: t)
              else None
          end
      end
  end.

(** Shapes are matched from the trailing axis. *)
Definition broadcast_shapes (s1 s2 : list nat) : option (list nat) :=
  option_map (@rev nat) (broadcast_rev (rev s1) (rev s2)).

Section Broadcast.
Context {A : Type}.

(** The buffer of an array of shape [src] read at shape [target], both of
    the same rank: an axis of length 1 is repeated. *)
Fixpoint stretch (target src : list nat) (d : list A) {struct target} : list A :=
  match target, src with
  | n :: target', m :: src' =>
      if m =? n
      then flat_map (stretch target' src') (chunk (size_of src') d m)
      else concat (repeat (stretch target' src' d) n)
  | _, _ => d
  end.

Definition broadcast_to (target : list nat) (a : ndarray A) : list A :=
  stretch target
          (repeat 1 (length target - length (shape a)) ++ shape a)
          (data a).
End Broadcast.

Definition ufunc2 {A B C : Type} (f : A -> B -> C) (a : ndarray A) (b : ndarray B)
  : result (ndarray C) :=
  match broadcast_shapes (shape a) (shape b) with
  | None => Raise (ValueError "operands could not be broadcast together")
  | Some s =>
      Ok (mk_ndarray s (map (fun p => f (fst p) (snd p))
                            (combine (broadcast_to s a) (broadcast_to s b))))
  end.

(** A binary operator applied to two expressions, left operand first. *)
Definition lift2 {A B C : Type} (f : A -> B -> C)
  (x : result (ndarray A)) (y : result (ndarray B)) : result (ndarray C) :=
  a <- x ;; b <- y ;; ufunc2 f a b.

Definition arr {A : Type} (a : ndarray A) : result (ndarray A) := Ok a.
Coercion arr : ndarray >-> result.

(** A Python scalar used as an operand. *)
Definition py {A : Type} (v : A) : result (ndarray A) := Ok (scalar v).

Declare Scope np_scope.
Delimit Scope np_scope with np.
Notation "x + y" := (lift2 add x y) : np_scope.
Notation "x - y" := (lift2 sub x y) : np_scope.
Notation "x * y" := (lift2 mul x y) : np_scope.
Notation "x / y" := (lift2 div x y) : np_scope.
Notation "x > y" := (lift2 (fun a b => ltb b a) x y) : np_scope.

Section NumpyFunctions.
Context {A : Type} `{Number A}.

(** [x ** n], [n] an integer literal. *)
Definition np_power `{Power A} (x : result (ndarray A)) (n : Z)
  : result (ndarray A) :=
  a <- x ;; Ok (mk_ndarray (shape a) (map (fun v => pow v n) (data a))).

(** [np.where(condition, x, y)]: the three arguments are evaluated, then
    broadcast together. *)
Definition np_where (condition : result (ndarray bool))
  (x y : result (ndarray A)) : result (ndarray A) :=
  c <- condition ;; a <- x ;; b <- y ;;
  ab <- ufunc2 pair a b ;;
  ufunc2 (fun (t : bool) (p : A * A) => if t then fst p else snd p) c ab.

Definition np_ones (s : list nat) : ndarray A :=
  mk_ndarray s (repeat ($1)%num (size_of s)).

(** numpy's order on floats for sorting and searching: NaN sorts last. *)
Definition npy_lt (a b : A) : bool :=
  ltb a b || (isnan b && negb (isnan a)).

(** The loop of [npy_binsearch], side left, between [lo] and [hi]. *)
Equations binsearch_left (a : list A) (key : A) (lo hi : nat) : nat
  by wf (hi - lo) lt :=
  binsearch_left a key lo hi with lt_dec lo hi := {
    | right _ => lo
    | left _ with npy_lt (nth (lo + Nat.div2 (hi - lo)) a key) key := {
        | true => binsearch_left a key (S (lo + Nat.div2 (hi - lo))) hi
        | false => binsearch_left a key lo (lo + Nat.div2 (hi - lo))
      }
  }.
Next Obligation.
  assert (Hd : Nat.div2 (hi - lo) < hi - lo) by (apply Nat.lt_div2; lia).
  revert Hd; generalize (Nat.div2 (hi - lo)); intros; lia.
Qed.
Next Obligation.
  assert (Hd : Nat.div2 (hi - lo) < hi - lo) by (apply Nat.lt_div2; lia).
  revert Hd; generalize (Nat.div2 (hi - lo)); intros; lia.
Qed.

(** [np.searchsorted(a, v)] for a scalar [v]. *)
Definition np_searchsorted (a : ndarray A) (v : A) : result nat :=
  match shape a with
  | [n] => Ok (binsearch_left (data a) v 0 n)
  | _ => Raise (ValueError "object of wrong depth for desired array")
  end.

(** One step of the maximum reduction, numpy's
    [(a >= b || isnan(a)) ? a : b].  Of two values that compare equal, the
    zeros +0.0 and -0.0, this keeps the accumulator; numpy's vectorised
    loops may keep the other, so the sign of a zero maximum is not fixed by
    the library. *)
Definition scalar_max (acc v : A) : A :=
  if leb v acc || isnan acc then acc else v.

(** [a.max()]: over every element; no identity on an empty array. *)
Definition np_max (a : ndarray A) : result A :=
  match data a with
  | [] => Raise (ValueError
            "zero-size array to reduction operation maximum which has no identity")
  | v :: rest => Ok (fold_left scalar_max rest v)
  end.
End NumpyFunctions.

(* ===================================================================== *)
(** * prysm.colorimetry                                                   *)
(* ===================================================================== *)

(** A coordinate held by a colour object: [None], a number or an array
    (a number is a 0-d array). *)
Definition obj (A : Type) : Type := option (ndarray A).

(** The color-science package, [colour]: an external collaborator.  Only the
    entry points the module calls appear, each as a function that may raise. *)
Record colour_module (W A SPD Shape : Type) : Type := {
  colour_XYZ_to_xy : obj A * obj A * obj A -> result (ndarray A);
  colour_XYZ_to_Luv : obj A * obj A * obj A -> result (ndarray A);
  colour_Luv_to_uv : obj A * obj A * obj A -> result (ndarray A);
  colour_SpectralPowerDistribution : string -> list (W * ndarray A) -> result SPD;
  colour_SpectralShape : Z -> Z -> Z -> result Shape;
  colour_align : SPD -> Shape -> result SPD;
  colour_spectral_to_XYZ : SPD -> result (ndarray A)
}.

(** [import colour]: binds the name when the package is installed. *)
Definition import_colour (installed : bool) : M unit :=
  if installed then bind_global "colour"
  else raise (ImportError "No module named 'colour'").

(** The module body, top to bottom: the guarded import, the other imports,
    the constants, then the class and function definitions. *)
Definition module_body (colour_installed : bool) : M unit :=
  _ <~ bind_global "np" ;;
  _ <~ try_except_ImportError (import_colour colour_installed) (ret tt) ;;
  _ <~ bind_global "share_fig_ax" ;;
  _ <~ bind_global "generate_mask" ;;
  _ <~ bind_global "nan" ;;
  _ <~ bind_global "CIE_K" ;;
  _ <~ bind_global "CIE_E" ;;
  _ <~ bind_global "Spectrum" ;;
  _ <~ bind_global "CIEXYZ" ;;
  _ <~ bind_global "CIELUV" ;;
  _ <~ bind_global "normalize_spectrum" ;;
  _ <~ bind_global "spd_from_spectrum" ;;
  _ <~ bind_global "check_colour" ;;
  _ <~ bind_global "cie_1976_plot" ;;
  _ <~ bind_global "XYZ_to_xyY" ;;
  _ <~ bind_global "XYZ_to_xy" ;;
  _ <~ bind_global "XYZ_to_uv" ;;
  _ <~ bind_global "xyY_to_xy" ;;
  _ <~ bind_global "xyY_to_XYZ" ;;
  _ <~ bind_global "xy_to_xyY" ;;
  _ <~ bind_global "xy_to_XYZ" ;;
  _ <~ bind_global "Luv_to_XYZ" ;;
  _ <~ bind_global "Luv_to_uv" ;;
  _ <~ bind_global "Luv_uv_to_xy" ;;
  _ <~ bind_global "XYZ_to_RGB" ;;
  bind_global "XYZ_to_sRGB".

(** Importing [prysm.colorimetry] in a fresh namespace. *)
Definition import_module (colour_installed : bool) : result unit * globals :=
  module_body colour_installed [].

(** ** Spectrum *)

Module Spectrum.
Record t (W A : Type) : Type := make {
  wavelengths : ndarray W;
  values : ndarray A;
  meta : list (string * string)
}.
Arguments make {W A} wavelengths values meta.

(** [Spectrum(wavelengths, values)]; [np.asarray] of an array is that
    array. *)
Definition __init__ {W A : Type} (wavelengths : ndarray W) (values : ndarray A)
  : t W A :=
  make wavelengths values [].
End Spectrum.

Section Constants.
Context {A : Type} `{Number A}.

Definition CIE_K : A := ($24389 / $27)%num.
Definition CIE_E : A := ($216 / $24389)%num.
End Constants.

Section SpectrumFunctions.
Context {W A : Type} `{Number W} `{Number A}.

Definition normalize_spectrum (spectrum : Spectrum.t W A)
  : result (Spectrum.t W A) :=
  let wvl := Spectrum.wavelengths spectrum in
  let vals := Spectrum.values spectrum in
  low <- np_searchsorted wvl ($400)%num ;;
  high <- np_searchsorted wvl ($700)%num ;;
  visible <- getslice vals low high ;;
  vis_values_max <- np_max visible ;;
  scaled <- (vals / py vis_values_max)%np ;;
  Ok (Spectrum.__init__ wvl scaled).

(** [d[k] = v] on a dict kept in insertion order. *)
Fixpoint dict_set (k : W) (v : ndarray A) (d : list (W * ndarray A))
  : list (W * ndarray A) :=
  match d with
  | [] => [(k, v)]
  | (k', v') :: d' => if eqb k' k then (k', v) :: d'
                      else (k', v') :: dict_set k v d'
  end.

(** A dict key has to be hashable: a numpy scalar is, an array is not. *)
Definition hashable_key (k : ndarray W) : result W :=
  match shape k, data k with
  | [], [w] => Ok w
  | _, _ => Raise (TypeError "unhashable type: 'numpy.ndarray'")
  end.

Fixpoint dict_of_pairs (pairs : list (ndarray W * ndarray A))
  (d : list (W * ndarray A)) : result (list (W * ndarray A)) :=
  match pairs with
  | [] => Ok d
  | (k, v) :: pairs' =>
      w <- hashable_key k ;; dict_of_pairs pairs' (dict_set w v d)
  end.

(** [dict(zip(spectrum.wavelengths, spectrum.values))]. *)
Definition spectrum_dict (spectrum : Spectrum.t W A)
  : result (list (W * ndarray A)) :=
  ws <- iter_first (Spectrum.wavelengths spectrum) ;;
  vs <- iter_first (Spectrum.values spectrum) ;;
  dict_of_pairs (combine ws vs) [].
End SpectrumFunctions.

Section ColourObjects.
Context {W A SPD Shape : Type} `{Number W} `{Number A}.
Variable colour : colour_module W A SPD Shape.

Definition check_colour : M unit :=
  g <~ get_globals ;;
  if negb (in_globals "colour" g)
  then raise (ImportError
                ("prysm colorimetry requires the colour package, "
                 ++ "see http://colour-science.org/installation-guide/")%string)
  else ret tt.

Definition spd_from_spectrum (spectrum : Spectrum.t W A) : M SPD :=
  spectrum_dict <~ lift (spectrum_dict spectrum) ;;
  _ <~ load_global "colour" ;;
  lift (colour_SpectralPowerDistribution colour EmptyString spectrum_dict).
End ColourObjects.

Module CIEXYZ.
Record t (A : Type) : Type := __init__ { x : obj A; y : obj A; z : obj A }.
Arguments __init__ {A} x y z.

Section Methods.
Context {W A SPD Shape : Type} `{Number W} `{Number A}.
Variable colour : colour_module W A SPD Shape.

Definition to_xy (self : t A) : M (ndarray A) :=
  _ <~ check_colour ;;
  _ <~ load_global "colour" ;;
  lift (colour_XYZ_to_xy colour (x self, y self, z self)).

(** [CIEXYZ( *xyz )]: the items of [xyz] as positional arguments. *)
Definition from_items (xyz : ndarray A) : result (t A) :=
  items <- iter_first xyz ;;
  match items with
  | [a; b; c] => Ok (__init__ (Some a) (Some b) (Some c))
  | _ => Raise (TypeError "__init__() takes exactly 3 positional arguments")
  end.

Definition from_spectrum (spectrum : Spectrum.t W A) : M (t A) :=
  _ <~ check_colour ;;
  spectrum <~ lift (normalize_spectrum spectrum) ;;
  spd <~ spd_from_spectrum colour spectrum ;;
  _ <~ load_global "colour" ;;
  standard_wavelengths <~ lift (colour_SpectralShape colour 360 780 10) ;;
  _ <~ load_global "colour" ;;
  aligned <~ lift (colour_align colour spd standard_wavelengths) ;;
  xyz <~ lift (colour_spectral_to_XYZ colour aligned) ;;
  lift (from_items xyz).
End Methods.
End CIEXYZ.

Module CIELUV.
Record t (A : Type) : Type := make { u : obj A; v : obj A; l : obj A }.
Arguments make {A} u v l.

(** [CIELUV(u, v, l=None)]. *)
Definition __init__ {A : Type} (u v : obj A) (l : obj A) : t A := make u v l.

Section Methods.
Context {W A SPD Shape : Type} `{Number W} `{Number A}.
Variable colour : colour_module W A SPD Shape.

Definition to_uv (self : t A) : M (ndarray A) :=
  _ <~ load_global "colour" ;;
  lift (colour_Luv_to_uv colour (l self, u self, v self)).

(** The [if]/[elif] that opens [from_XYZ]: which coordinates are used. *)
Definition from_XYZ_arguments (ciexyz : option (CIEXYZ.t A)) (x y z : obj A)
  : M (obj A * obj A * obj A) :=
  match ciexyz with
  | Some c => ret (CIEXYZ.x c, CIEXYZ.y c, CIEXYZ.z c)
  | None =>
      match x, y, z with
      | None, None, None => raise (ValueError "all values are None")
      | _, _, _ => ret (x, y, z)
      end
  end.

(** The two statements that close [from_XYZ]. *)
Definition from_XYZ_convert (xyz : obj A * obj A * obj A) : M (t A) :=
  let '(x, y, z) := xyz in
  _ <~ load_global "colour" ;;
  luv <~ lift (colour_XYZ_to_Luv colour (x, y, z)) ;;
  items <~ lift (iter_first luv) ;;
  '(l, u, v) <~ lift (unpack3 items) ;;
  ret (__init__ (Some u) (Some v) (Some l)).

Definition from_XYZ (ciexyz : option (CIEXYZ.t A)) (x y z : obj A) : M (t A) :=
  xyz <~ from_XYZ_arguments ciexyz x y z ;;
  from_XYZ_convert xyz.

Definition from_spectrum (spectrum : Spectrum.t W A) : M (t A) :=
  xyz <~ CIEXYZ.from_spectrum colour spectrum ;;
  from_XYZ (Some xyz) None None None.
End Methods.
End CIELUV.

(** ** Colour space conversions *)

Section Conversions.
Context {A : Type} `{Number A}.
Local Open Scope num_scope.

Definition XYZ_to_xyY (XYZ : ndarray A) : result (ndarray A) :=
  X <- getitem_last XYZ 0 ;;
  Y <- getitem_last XYZ 1 ;;
  Z <- getitem_last XYZ 2 ;;
  x <- (X / (X + Y + Z))%np ;;
  y <- (Y / (X + Y + Z))%np ;;
  let Y := Y in
  let shp := shape x in
  np_stack [x; y; Y] (length shp).

(** [shape[-1] is 2] compares small integers, for which identity is
    equality; [x, y, Y = xyY] iterates the first axis. *)
Definition xyY_to_xy (xyY : ndarray A) : result (ndarray A) :=
  let shp := shape xyY in
  last <- tuple_last shp ;;
  if last =? 2 then Ok xyY
  else
    items <- iter_first xyY ;;
    '(x, y, Y) <- unpack3 items ;;
    let shp := shape x in
    np_stack [x; y] (length shp).

Definition XYZ_to_xy (XYZ : ndarray A) : result (ndarray A) :=
  xyY <- XYZ_to_xyY XYZ ;;
  xyY_to_xy xyY.

Definition XYZ_to_uv (XYZ : ndarray A) : result (ndarray A) :=
  X <- getitem_last XYZ 0 ;;
  Y <- getitem_last XYZ 1 ;;
  Z <- getitem_last XYZ 2 ;;
  u <- ((py $4 * X) / (X + py $15 * Y + py $3 * Z))%np ;;
  v <- ((py $9 * Y) / (X + py $15 * Y + py $3 * Z))%np ;;
  let shp := shape u in
  np_stack [u; v] (length shp).

Definition xyY_to_XYZ (xyY : ndarray A) : result (ndarray A) :=
  x <- getitem_last xyY 0 ;;
  y <- getitem_last xyY 1 ;;
  Y <- getitem_last xyY 2 ;;
  X <- ((x * Y) / y)%np ;;
  let Y := Y in
  Z <- (((py $1 - x - y) * Y) / y)%np ;;
  let shp := shape X in
  np_stack [X; Y; Z] (length shp).

(** [xy_to_xyY(xy, Y)]; the default of [Y] is the integer 1. *)
Definition xy_to_xyY (xy : ndarray A) (Y : ndarray A) : result (ndarray A) :=
  let shp := shape xy in
  last <- tuple_last shp ;;
  if last =? 3 then Ok xy
  else
    x <- getitem_last xy 0 ;;
    y <- getitem_last xy 1 ;;
    Y <- (np_ones (shape x) * Y)%np ;;
    let shp := shape x in
    np_stack [x; y; Y] (length shp).

Definition xy_to_XYZ (xy : ndarray A) : result (ndarray A) :=
  xyY <- xy_to_xyY xy (scalar $1) ;;
  xyY_to_XYZ xyY.

(** [XYZ_D50 = [0.9642, 1.0000, 0.8251]] is unpacked into [X_r], [Y_r],
    [Z_r]; a decimal literal is the quotient of two integers that binary64
    holds exactly, which rounds as the literal does. *)
Definition Luv_to_XYZ `{Power A} (Luv : ndarray A) : result (ndarray A) :=
  L <- getitem_last Luv 0 ;;
  u <- getitem_last Luv 1 ;;
  v <- getitem_last Luv 2 ;;
  let X_r : A := $9642 / $10000 in
  let Y_r : A := $1 in
  let Z_r : A := $8251 / $10000 in
  Y <- np_where (L > py (CIE_E * CIE_K)%num)%np
                (np_power ((L + py $16) / py $116)%np 3)
                (L / py CIE_K)%np ;;
  a <- (py ($1 / $3)%num
        * ((py $52 * L
            / (u + py $13 * L
                   * py ($4 * X_r / (X_r + $15 * Y_r + $3 * Z_r))%num))
           - py $1))%np ;;
  b <- (py $(-5) * Y)%np ;;
  c <- py ($(-1) / $3)%num ;;
  d <- (Y * (py $39 * L
             / (v + py $13 * L
                    * py ($9 * Y_r / (X_r + $15 * Y_r + $3 * Z_r))%num)
             - py $5))%np ;;
  X <- ((d - b) / (a - c))%np ;;
  Z <- (X * a + b)%np ;;
  let shp := shape X in
  np_stack [X; Y; Z] (length shp).

Definition Luv_to_uv `{Power A} (Luv : ndarray A) : result (ndarray A) :=
  XYZ <- Luv_to_XYZ Luv ;;
  XYZ_to_uv XYZ.

Definition Luv_uv_to_xy (uv : ndarray A) : result (ndarray A) :=
  u <- getitem_last uv 0 ;;
  v <- getitem_last uv 1 ;;
  x <- ((py $9 * u) / (py $6 * u - py $16 * v + py $12))%np ;;
  y <- ((py $4 * v) / (py $6 * u - py $16 * v + py $12))%np ;;
  let shp := shape x in
  np_stack [x; y] (length shp).

(** The body is [pass]: the call returns [None]. *)
Definition XYZ_to_RGB (XYZ : ndarray A) : M (option (ndarray A)) := ret None.

Definition XYZ_to_sRGB (XYZ : ndarray A) : M (option (ndarray A)) := ret None.
End Conversions.

(* ===================================================================== *)
(** * Arrays given by their elements                                      *)
(* ===================================================================== *)

(** The array of shape [s] holding [g t] for each [t] of [ts], in order. *)
Definition pointwise {T B : Type} (s : list nat) (ts : list T) (g : T -> B)
  : ndarray B :=
  mk_ndarray s (map g ts).

(** The array of shape [s ++ [n]] whose trailing axis holds [row t]. *)
Definition of_rows {T A : Type} (s : list nat) (n : nat) (row : T -> list A)
  (ts : list T) : ndarray A :=
  mk_ndarray (s ++ [n]) (flat_map row ts).

Definition row3 {A : Type} (t : A * A * A) : list A :=
  let '(a, b, c) := t in [a; b; c].

Definition row2 {A : Type} (t : A * A) : list A :=
  let '(a, b) := t in [a; b].

(** An array of triples: shape [s ++ [3]]. *)
Definition of_triples {A : Type} (s : list nat) (ts : list (A * A * A)) : ndarray A :=
  of_rows s 3 row3 ts.

(** An array of pairs: shape [s ++ [2]]. *)
Definition of_pairs {A : Type} (s : list nat) (ts : list (A * A)) : ndarray A :=
  of_rows s 2 row2 ts.

(** Reading a buffer three elements at a time. *)
Fixpoint to_triples {A : Type} (l : list A) : list (A * A * A) :=
  match l with
  | a :: b :: c :: l' => (a, b, c) :: to_triples l'
  | _ => []
  end.

Fixpoint to_pairs {A : Type} (l : list A) : list (A * A) :=
  match l with
  | a :: b :: l' => (a, b) :: to_pairs l'
  | _ => []
  end.

(* ===================================================================== *)
(** * What the conversions compute for one element                       *)
(* ===================================================================== *)

(** Each conversion is vectorised over the leading axes.  The functions
    below give, for one tuple of the trailing axis, the expressions of the
    corresponding source function; the theorems relate the two. *)

Section Elements.
Context {A : Type} `{Number A}.
Local Open Scope num_scope.

Definition XYZ_to_xyY_element (t : A * A * A) : A * A * A :=
  let '(X, Y, Z) := t in
  (X / (X + Y + Z), Y / (X + Y + Z), Y).

Definition XYZ_to_xy_element (t : A * A * A) : A * A :=
  let '(X, Y, Z) := t in
  (X / (X + Y + Z), Y / (X + Y + Z)).

Definition XYZ_to_uv_element (t : A * A * A) : A * A :=
  let '(X, Y, Z) := t in
  (($4 * X) / (X + $15 * Y + $3 * Z), ($9 * Y) / (X + $15 * Y + $3 * Z)).

Definition xyY_to_XYZ_element (t : A * A * A) : A * A * A :=
  let '(x, y, Y) := t in
  ((x * Y) / y, Y, (($1 - x - y) * Y) / y).

Definition Luv_uv_to_xy_element (t : A * A) : A * A :=
  let '(u, v) := t in
  (($9 * u) / ($6 * u - $16 * v + $12), ($4 * v) / ($6 * u - $16 * v + $12)).

(** The D50 reference white of [Luv_to_XYZ]. *)
Definition X_r : A := $9642 / $10000.
Definition Y_r : A := $1.
Definition Z_r : A := $8251 / $10000.

(** The piecewise rule for the luminance. *)
Definition Luv_Y `{Power A} (L : A) : A :=
  if ltb (CIE_E * CIE_K) L then pow ((L + $16) / $116) 3 else L / CIE_K.

Definition Luv_to_XYZ_element `{Power A} (t : A * A * A) : A * A * A :=
  let '(L, u, v) := t in
  let Y := Luv_Y L in
  let a := $1 / $3
           * ($52 * L / (u + $13 * L * ($4 * X_r / (X_r + $15 * Y_r + $3 * Z_r)))
              - $1) in
  let b := $(-5) * Y in
  let c := $(-1) / $3 in
  let d := Y * ($39 * L / (v + $13 * L * ($9 * Y_r / (X_r + $15 * Y_r + $3 * Z_r)))
                - $5) in
  let X := (d - b) / (a - c) in
  let Z := X * a + b in
  (X, Y, Z).

(** A wavelength of the visible band: 400 nm included, 700 nm excluded. *)
Definition in_visible_band (w : A) : bool := leb $400 w && ltb w $700.

(** The band with both ends included. *)
Definition in_closed_visible_band (w : A) : bool := leb $400 w && leb w $700.

(** The laws of the order the searches and reductions rely on; NaN, which
    compares false with everything, is left out of each. *)
Record OrderLaws : Prop := {
  leb_number : forall a b, leb a b = true -> isnan a = false /\ isnan b = false;
  ltb_number : forall a b, ltb a b = true -> isnan a = false /\ isnan b = false;
  leb_trans : forall a b c, leb a b = true -> leb b c = true -> leb a c = true;
  leb_ltb_trans : forall a b c, leb a b = true -> ltb b c = true -> ltb a c = true;
  ltb_leb : forall a b, ltb a b = true -> leb a b = true;
  leb_total : forall a b, isnan a = false -> isnan b = false ->
                          leb b a = negb (ltb a b)
}.
End Elements.
Arguments OrderLaws A {_}.

(** The values of a spectrum whose wavelength satisfies [band]. *)
Definition band_values {W A : Type} (band : W -> bool) (ws : list W) (vs : list A)
  : list A :=
  map snd (filter (fun p => band (fst p)) (combine ws vs)).

(** Wavelengths and values paired one to one. *)
Definition paired {W A : Type} (sp : Spectrum.t W A) : Prop :=
  shape (Spectrum.wavelengths sp) = shape (Spectrum.values sp)
  /\ well_formed (Spectrum.wavelengths sp)
  /\ well_formed (Spectrum.values sp).

(** Length of the longest prefix whose elements satisfy [P]. *)
Fixpoint prefix_len {T : Type} (P : T -> bool) (l : list T) : nat :=
  match l with
  | [] => 0
  | x :: l' => if P x then S (prefix_len P l') else 0
  end.

(** No element after that prefix satisfies [P]. *)
Definition partitioned {T : Type} (P : T -> bool) (l : list T) : Prop :=
  forallb (fun x => negb (P x)) (skipn (prefix_len P l) l) = true.

(** A triple of rationals neither of whose chromaticity denominators,
    X + Y + Z and X + 15 Y + 3 Z, is zero. *)
Definition projects (t : Qc * Qc * Qc) : Prop :=
  let '(X, Y, Z) := t in
  (X + Y + Z)%num <> ($0)%num /\ (X + $15 * Y + $3 * Z)%num <> ($0)%num.

(** A stand-in for the colour package, for the examples: the conversions
    hand back fixed coordinates, the spectral entry points the unit value. *)
Definition colour_stub : colour_module float float unit unit := {|
  colour_XYZ_to_xy := fun _ => Ok (mk_ndarray [2] [0.25; 0.5]%float);
  colour_XYZ_to_Luv := fun _ => Ok (mk_ndarray [3] [50; 0.25; 0.5]%float);
  colour_Luv_to_uv := fun _ => Ok (mk_ndarray [2] [0.25; 0.5]%float);
  colour_SpectralPowerDistribution := fun _ _ => Ok tt;
  colour_SpectralShape := fun _ _ _ => Ok tt;
  colour_align := fun _ _ => Ok tt;
  colour_spectral_to_XYZ := fun _ => Ok (mk_ndarray [3] [0.25; 0.5; 0.25]%float)
|}.

(** The same stand-in asked for two colours at once: [XYZ_to_Luv] hands
    back one (L, u, v) row for each, an array of shape (2, 3). *)
Definition colour_grid_stub : colour_module float float unit unit := {|
  colour_XYZ_to_xy := colour_XYZ_to_xy colour_stub;
  colour_XYZ_to_Luv :=
    fun _ => Ok (mk_ndarray [2; 3] [50; 0.25; 0.5; 60; 0.125; 0.375]%float);
  colour_Luv_to_uv := colour_Luv_to_uv colour_stub;
  colour_SpectralPowerDistribution := colour_SpectralPowerDistribution colour_stub;
  colour_SpectralShape := colour_SpectralShape colour_stub;
  colour_align := colour_align colour_stub;
  colour_spectral_to_XYZ := colour_spectral_to_XYZ colour_stub
|}.

(** What dividing [n] by a zero gives as [q] on binary64: NaN when [n] is
    NaN or a zero, an infinity otherwise. *)
Definition zero_quotient (n q : float) : Prop :=
  isnan q = (isnan n || PrimFloat.eqb n 0)
  /\ is_infinity q = negb (isnan n || PrimFloat.eqb n 0).

(* ===================================================================== *)
(** * The rest of the module                                              *)
(* ===================================================================== *)

(** Tuple unpacking into two targets, [a, b = items]. *)
Definition unpack2 {T : Type} (items : list T) : result (T * T) :=
  match items with
  | [] => Raise (ValueError "not enough values to unpack (expected 2, got 0)")
  | [_] => Raise (ValueError "not enough values to unpack (expected 2, got 1)")
  | [a; b] => Ok (a, b)
  | _ => Raise (ValueError "too many values to unpack (expected 2)")
  end.

(** [np.arange(start, stop, step)] for integers and a positive step: an
    integer array. *)
Definition np_arange (start stop step : Z) : ndarray Z :=
  let count := Z.to_nat ((stop - start + step - 1) / step) in
  mk_ndarray [count]
             (map (fun i => (start + Z.of_nat i * step)%Z) (seq 0 count)).

Section Plot.
Context {A : Type} `{Number A}.

(** [colour.wavelength_to_XYZ], the one entry point of the colour package
    that only the plot calls. *)
Variable colour_wavelength_to_XYZ : ndarray Z -> result (ndarray A).

(** The statements of [cie_1976_plot] that compute the spectral locus:
    [wvl = np.arange(400, 700, 10)],
    [wvl_XYZ = colour.wavelength_to_XYZ(wvl)] and
    [wvl_u, wvl_v = XYZ_to_uv(wvl_XYZ)].  They run first, after the default
    of [ylim] is set; what follows them calls [prysm.geometry] and
    [prysm.util]. *)
Definition cie_1976_plot_locus : M (ndarray A * ndarray A) :=
  let wvl := np_arange 400 700 10 in
  _ <~ load_global "colour" ;;
  wvl_XYZ <~ lift (colour_wavelength_to_XYZ wvl) ;;
  uv <~ lift (XYZ_to_uv wvl_XYZ) ;;
  items <~ lift (iter_first uv) ;;
  lift (unpack2 items).
End Plot.

Section MoreElements.
Context {A : Type} `{Number A}.
Local Open Scope num_scope.

(** [xy_to_xyY] for one pair and a scalar [Y]: [np.ones(...) * Y]. *)
Definition xy_to_xyY_element (Y : A) (t : A * A) : A * A * A :=
  let '(x, y) := t in (x, y, $1 * Y).

(** [xy_to_XYZ] for one pair: the default [Y = 1], then [xyY_to_XYZ]. *)
Definition xy_to_XYZ_element (t : A * A) : A * A * A :=
  xyY_to_XYZ_element (xy_to_xyY_element $1 t).

(** [Luv_to_uv] for one triple. *)
Definition Luv_to_uv_element `{Power A} (t : A * A * A) : A * A :=
  XYZ_to_uv_element (Luv_to_XYZ_element t).

(** The u', v' of the reference white, as [Luv_to_XYZ] computes them. *)
Definition u_r : A := $4 * X_r / (X_r + $15 * Y_r + $3 * Z_r).
Definition v_r : A := $9 * Y_r / (X_r + $15 * Y_r + $3 * Z_r).
End MoreElements.

(* ===================================================================== *)
(** * Buffers, blocks and shapes                                          *)
(* ===================================================================== *)

Section BufferLemmas.
Context {A : Type}.

Lemma size_of_app (s t : list nat) : size_of (s ++ t) = size_of s * size_of t.
Proof.
  induction s as [|d s IH]; simpl.
  - lia.
  - rewrite IH. lia.
Qed.

Lemma size_of_rev (s : list nat) : size_of (rev s) = size_of s.
Proof.
  induction s as [|d s IH]; simpl; trivial.
  rewrite size_of_app, IH. simpl. lia.
Qed.

Lemma size_of_ones (k : nat) : size_of (repeat 1 k) = 1.
Proof. induction k; simpl; lia. Qed.

(** Cutting a concatenation of equal-length rows gives the rows back. *)
Lemma chunk_flat_map {T : Type} (row : T -> list A) (n : nat) (ts : list T)
  (rest : list A) :
  (forall t, length (row t) = n) ->
  chunk n (flat_map row ts ++ rest) (length ts) = map row ts.
Proof.
  intros Hrow. induction ts as [|t ts IH]; simpl; trivial.
  rewrite <- app_assoc.
  rewrite firstn_app, skipn_app, Hrow, Nat.sub_diag.
  rewrite firstn_all2, skipn_all2 by (rewrite Hrow; lia).
  simpl. rewrite app_nil_r. f_equal. exact IH.
Qed.

Lemma chunk_flat_map_exact {T : Type} (row : T -> list A) (n : nat) (ts : list T) :
  (forall t, length (row t) = n) ->
  chunk n (flat_map row ts) (length ts) = map row ts.
Proof.
  intros Hrow. rewrite <- (app_nil_r (flat_map row ts)).
  now apply chunk_flat_map.
Qed.

Lemma chunk_length (n : nat) (l : list A) (count : nat) :
  length (chunk n l count) = count.
Proof.
  revert l. induction count as [|c IH]; intros l; simpl; auto.
Qed.

(** A buffer of [count] blocks is the concatenation of its blocks. *)
Lemma concat_chunk (n : nat) (l : list A) (count : nat) :
  length l = count * n -> concat (chunk n l count) = l.
Proof.
  revert l. induction count as [|c IH]; intros l Hl; simpl in *.
  - destruct l; simpl in *; [trivial | discriminate].
  - rewrite IH.
    + apply firstn_skipn.
    + rewrite length_skipn. lia.
Qed.

Lemma chunk_block_length (n : nat) (l : list A) (count : nat) :
  length l = count * n -> Forall (fun b => length b = n) (chunk n l count).
Proof.
  revert l. induction count as [|c IH]; intros l Hl; simpl in *.
  - constructor.
  - constructor.
    + rewrite length_firstn. lia.
    + apply IH. rewrite length_skipn. lia.
Qed.

Lemma flat_map_concat_id (f : list A -> list A) (bs : list (list A)) :
  Forall (fun b => f b = b) bs -> flat_map f bs = concat bs.
Proof.
  induction 1 as [|b bs Hb _ IH]; simpl; congruence.
Qed.

Lemma stretch_cons (n : nat) (t : list nat) (m : nat) (u : list nat) (d : list A) :
  stretch (n :: t) (m :: u) d =
  if m =? n then flat_map (stretch t u) (chunk (size_of u) d m)
  else concat (repeat (stretch t u d) n).
Proof. reflexivity. Qed.

(** Reading an array at its own shape changes nothing. *)
Lemma stretch_same (s : list nat) (d : list A) :
  length d = size_of s -> stretch s s d = d.
Proof.
  revert d. induction s as [|n s IH]; intros d Hd; simpl in *; trivial.
  rewrite Nat.eqb_refl.
  rewrite flat_map_concat_id.
  - now apply concat_chunk.
  - eapply Forall_impl; [| apply chunk_block_length; exact Hd].
    intros b Hb. now apply IH.
Qed.

Lemma concat_repeat_repeat (c : A) (k n : nat) :
  concat (repeat (repeat c k) n) = repeat c (n * k).
Proof.
  induction n as [|n IH]; simpl; trivial.
  now rewrite IH, repeat_app.
Qed.

(** A scalar read at shape [s] fills it. *)
Lemma stretch_scalar (s : list nat) (c : A) :
  stretch s (repeat 1 (length s)) [c] = repeat c (size_of s).
Proof.
  induction s as [|n s IH]; trivial.
  change (repeat 1 (length (n :: s))) with (1 :: repeat 1 (length s)).
  rewrite stretch_cons.
  destruct (Nat.eqb_spec 1 n) as [<-|Hn].
  - rewrite size_of_ones. simpl. rewrite IH, app_nil_r.
    now rewrite Nat.add_0_r.
  - rewrite IH. apply concat_repeat_repeat.
Qed.

Lemma broadcast_to_same (s : list nat) (d : list A) :
  length d = size_of s -> broadcast_to s (mk_ndarray s d) = d.
Proof.
  intros Hd. unfold broadcast_to. simpl.
  rewrite Nat.sub_diag. simpl. now apply stretch_same.
Qed.

Lemma broadcast_to_scalar (s : list nat) (c : A) :
  broadcast_to s (scalar c) = repeat c (size_of s).
Proof.
  unfold broadcast_to. simpl.
  rewrite Nat.sub_0_r, app_nil_r. apply stretch_scalar.
Qed.
End BufferLemmas.

Lemma broadcast_rev_same (r : list nat) : broadcast_rev r r = Some r.
Proof.
  induction r as [|d r IH]; simpl; trivial.
  now rewrite IH, Nat.eqb_refl.
Qed.

Lemma broadcast_shapes_same (s : list nat) : broadcast_shapes s s = Some s.
Proof.
  unfold broadcast_shapes. rewrite broadcast_rev_same. simpl.
  now rewrite rev_involutive.
Qed.

Lemma broadcast_shapes_scalar_l (s : list nat) : broadcast_shapes [] s = Some s.
Proof.
  unfold broadcast_shapes. simpl. now rewrite rev_involutive.
Qed.

Lemma broadcast_rev_nil_r (r : list nat) : broadcast_rev r [] = Some r.
Proof. destruct r; reflexivity. Qed.

Lemma broadcast_shapes_scalar_r (s : list nat) : broadcast_shapes s [] = Some s.
Proof.
  unfold broadcast_shapes. simpl. rewrite broadcast_rev_nil_r. simpl.
  now rewrite rev_involutive.
Qed.

Lemma shape_eqb_refl (s : list nat) : shape_eqb s s = true.
Proof.
  unfold shape_eqb. rewrite Nat.eqb_refl. simpl.
  induction s as [|d s IH]; simpl; trivial.
  now rewrite Nat.eqb_refl.
Qed.

(* ===================================================================== *)
(** * Element-wise reading of the numpy operations                        *)
(* ===================================================================== *)

Section Pointwise.
Context {T : Type}.
Variable s : list nat.
Variable ts : list T.
Hypothesis Hts : length ts = size_of s.

Local Abbreviation pw := (pointwise s ts).

Lemma combine_map_map {B C : Type} (g : T -> B) (h : T -> C) (l : list T) :
  combine (map g l) (map h l) = map (fun t => (g t, h t)) l.
Proof. induction l; simpl; congruence. Qed.

Lemma combine_repeat_l {B C : Type} (c : B) (h : T -> C) (l : list T) :
  combine (repeat c (length l)) (map h l) = map (fun t => (c, h t)) l.
Proof. induction l; simpl; congruence. Qed.

Lemma combine_repeat_r {B C : Type} (g : T -> B) (c : C) (l : list T) :
  combine (map g l) (repeat c (length l)) = map (fun t => (g t, c)) l.
Proof. induction l; simpl; congruence. Qed.

Lemma ufunc2_pw {B C D : Type} (f : B -> C -> D) (g : T -> B) (h : T -> C) :
  ufunc2 f (pw g) (pw h) = Ok (pw (fun t => f (g t) (h t))).
Proof.
  unfold ufunc2, pointwise. simpl.
  rewrite broadcast_shapes_same.
  rewrite !broadcast_to_same by (rewrite length_map; exact Hts).
  now rewrite combine_map_map, map_map.
Qed.

Lemma ufunc2_scalar_pw {B C D : Type} (f : B -> C -> D) (c : B) (h : T -> C) :
  ufunc2 f (scalar c) (pw h) = Ok (pw (fun t => f c (h t))).
Proof.
  unfold ufunc2, pointwise. simpl shape.
  rewrite broadcast_shapes_scalar_l.
  rewrite broadcast_to_scalar.
  rewrite broadcast_to_same by (rewrite length_map; exact Hts).
  now rewrite <- Hts, combine_repeat_l, map_map.
Qed.

Lemma ufunc2_pw_scalar {B C D : Type} (f : B -> C -> D) (g : T -> B) (c : C) :
  ufunc2 f (pw g) (scalar c) = Ok (pw (fun t => f (g t) c)).
Proof.
  unfold ufunc2, pointwise. simpl shape.
  rewrite broadcast_shapes_scalar_r.
  rewrite broadcast_to_scalar.
  rewrite broadcast_to_same by (rewrite length_map; exact Hts).
  now rewrite <- Hts, combine_repeat_r, map_map.
Qed.

Lemma lift2_pw {B C D : Type} (f : B -> C -> D) (g : T -> B) (h : T -> C) :
  lift2 f (Ok (pw g)) (Ok (pw h)) = Ok (pw (fun t => f (g t) (h t))).
Proof. apply ufunc2_pw. Qed.

Lemma lift2_scalar_pw {B C D : Type} (f : B -> C -> D) (c : B) (h : T -> C) :
  lift2 f (Ok (scalar c)) (Ok (pw h)) = Ok (pw (fun t => f c (h t))).
Proof. apply ufunc2_scalar_pw. Qed.

Lemma lift2_pw_scalar {B C D : Type} (f : B -> C -> D) (g : T -> B) (c : C) :
  lift2 f (Ok (pw g)) (Ok (scalar c)) = Ok (pw (fun t => f (g t) c)).
Proof. apply ufunc2_pw_scalar. Qed.

Lemma np_power_pw {A : Type} `{Power A} (g : T -> A) (n : Z) :
  np_power (Ok (pw g)) n = Ok (pw (fun t => pow (g t) n)).
Proof. unfold np_power, pointwise. simpl. now rewrite map_map. Qed.

Lemma np_where_pw {A : Type} (c : T -> bool) (g h : T -> A) :
  np_where (Ok (pw c)) (Ok (pw g)) (Ok (pw h))
  = Ok (pw (fun t => if c t then g t else h t)).
Proof.
  unfold np_where. simpl. rewrite ufunc2_pw. simpl. now rewrite ufunc2_pw.
Qed.

(** [a[..., k]] of an array given row by row. *)
Lemma getitem_last_of_rows {A : Type} (n k : nat) (row : T -> list A) (d : A) :
  (forall t, length (row t) = n) -> k < n ->
  getitem_last (of_rows s n row ts) k = Ok (pw (fun t => nth k (row t) d)).
Proof.
  intros Hrow Hk. unfold getitem_last, of_rows, pointwise. simpl.
  rewrite rev_app_distr. simpl.
  destruct (Nat.ltb_spec k n) as [_|]; [|lia].
  rewrite rev_involutive, size_of_rev, <- Hts.
  rewrite chunk_flat_map_exact by exact Hrow.
  f_equal. f_equal.
  clear Hts. induction ts as [|t l IH]; simpl; trivial.
  rewrite IH. unfold pick at 1.
  destruct (nth_error (row t) k) as [v|] eqn:E.
  - simpl. f_equal. symmetry. now apply nth_error_nth.
  - apply nth_error_None in E. rewrite Hrow in E. lia.
Qed.

Lemma stack_blocks {A : Type} (gs : list (T -> A)) (l : list T) :
  flat_map (fun o => flat_map (fun a : ndarray A => nth o (chunk 1 (data a) (length l)) [])
                              (map (fun g => mk_ndarray s (map g l)) gs))
           (seq 0 (length l))
  = flat_map (fun t => map (fun g => g t) gs) l.
Proof.
  induction l as [|t l IH]; simpl length; trivial.
  rewrite <- cons_seq, <- seq_shift.
  cbn [flat_map]. f_equal.
  - clear. induction gs as [|g gs IH]; [reflexivity|].
    simpl. f_equal. exact IH.
  - rewrite <- IH. rewrite flat_map_concat_map, map_map, <- flat_map_concat_map.
    apply flat_map_ext. intros o.
    clear. induction gs as [|g gs IH]; [reflexivity|].
    simpl. f_equal. exact IH.
Qed.

(** [np.stack] of same-shape arrays along a new trailing axis. *)
Lemma np_stack_pw {A : Type} (g0 : T -> A) (gs : list (T -> A)) :
  np_stack (map (pointwise s ts) (g0 :: gs)) (length s)
  = Ok (of_rows s (S (length gs)) (fun t => map (fun g => g t) (g0 :: gs)) ts).
Proof.
  unfold np_stack, of_rows. simpl map at 1. cbv iota.
  replace (forallb _ _) with true.
  2:{ symmetry. apply forallb_forall. intros a Ha.
      apply in_map_iff in Ha as (g & <- & _). apply shape_eqb_refl. }
  unfold ndim. simpl negb. cbv iota. simpl shape.
  rewrite Nat.ltb_irrefl.
  rewrite firstn_all, skipn_all. f_equal. f_equal.
  - now rewrite length_map.
  - rewrite <- Hts.
    change (size_of []) with 1.
    exact (stack_blocks (g0 :: gs) ts).
Qed.

Lemma np_stack2_pw {A : Type} (g0 g1 : T -> A) :
  np_stack [pw g0; pw g1] (length s)
  = Ok (of_rows s 2 (fun t => [g0 t; g1 t]) ts).
Proof. exact (np_stack_pw g0 [g1]). Qed.

Lemma np_stack3_pw {A : Type} (g0 g1 g2 : T -> A) :
  np_stack [pw g0; pw g1; pw g2] (length s)
  = Ok (of_rows s 3 (fun t => [g0 t; g1 t; g2 t]) ts).
Proof. exact (np_stack_pw g0 [g1; g2]). Qed.
End Pointwise.

(* ===================================================================== *)
(** * Arrays of triples and pairs                                         *)
(* ===================================================================== *)

Lemma to_triples_spec {A : Type} (n : nat) (l : list A) :
  length l = n * 3 ->
  flat_map row3 (to_triples l) = l /\ length (to_triples l) = n.
Proof.
  revert l. induction n as [|n IH]; intros l Hl.
  - destruct l; [split; reflexivity | discriminate].
  - destruct l as [|a [|b [|c l]]]; try discriminate.
    simpl in Hl. destruct (IH l) as [E1 E2]; [lia|].
    simpl. rewrite E1, E2. split; reflexivity.
Qed.

Lemma to_pairs_spec {A : Type} (n : nat) (l : list A) :
  length l = n * 2 ->
  flat_map row2 (to_pairs l) = l /\ length (to_pairs l) = n.
Proof.
  revert l. induction n as [|n IH]; intros l Hl.
  - destruct l; [split; reflexivity | discriminate].
  - destruct l as [|a [|b l]]; try discriminate.
    simpl in Hl. destruct (IH l) as [E1 E2]; [lia|].
    simpl. rewrite E1, E2. split; reflexivity.
Qed.

(** Every well-formed array whose trailing axis has length 3 is an array of
    triples. *)
Lemma array_of_triples {A : Type} (a : ndarray A) (s : list nat) :
  well_formed a -> shape a = s ++ [3] ->
  a = of_triples s (to_triples (data a))
  /\ length (to_triples (data a)) = size_of s.
Proof.
  intros Hwf Hs. unfold well_formed in Hwf.
  rewrite Hs, size_of_app in Hwf. simpl in Hwf.
  destruct (to_triples_spec (size_of s) (data a)) as [E1 E2]; [lia|].
  split; [|exact E2].
  destruct a as [sh d]. simpl in *. unfold of_triples, of_rows.
  now rewrite E1, Hs.
Qed.

Lemma array_of_pairs {A : Type} (a : ndarray A) (s : list nat) :
  well_formed a -> shape a = s ++ [2] ->
  a = of_pairs s (to_pairs (data a))
  /\ length (to_pairs (data a)) = size_of s.
Proof.
  intros Hwf Hs. unfold well_formed in Hwf.
  rewrite Hs, size_of_app in Hwf. simpl in Hwf.
  destruct (to_pairs_spec (size_of s) (data a)) as [E1 E2]; [lia|].
  split; [|exact E2].
  destruct a as [sh d]. simpl in *. unfold of_pairs, of_rows.
  now rewrite E1, Hs.
Qed.

Lemma of_rows_ext {T U A : Type} (s : list nat) (n : nat)
  (row : T -> list A) (row' : U -> list A) (f : T -> U) (ts : list T) :
  (forall t, row t = row' (f t)) ->
  of_rows s n row ts = of_rows s n row' (map f ts).
Proof.
  intros E. unfold of_rows. f_equal.
  rewrite !flat_map_concat_map, map_map. f_equal.
  apply map_ext. exact E.
Qed.

Lemma row3_length {A : Type} (t : A * A * A) : length (row3 t) = 3.
Proof. destruct t as [[a b] c]. reflexivity. Qed.

Lemma row2_length {A : Type} (t : A * A) : length (row2 t) = 2.
Proof. destruct t as [a b]. reflexivity. Qed.

(* ===================================================================== *)
(** * The conversions, element by element                                 *)
(* ===================================================================== *)

(** Evaluates a conversion on an array given by its rows: indexing, then
    the arithmetic from the innermost expression outwards, then the stack. *)
Ltac eval_rows Hts Hrow d :=
  unfold arr, py;
  repeat first
    [ rewrite (getitem_last_of_rows _ _ Hts _ d Hrow) by lia
    | rewrite (lift2_pw _ _ Hts)
    | rewrite (lift2_scalar_pw _ _ Hts)
    | rewrite (lift2_pw_scalar _ _ Hts)
    | rewrite np_power_pw
    | rewrite (np_where_pw _ _ Hts)
    | progress cbn [bind] ];
  cbn [shape pointwise];
  first [ rewrite (np_stack3_pw _ _ Hts) | rewrite (np_stack2_pw _ _ Hts) ].

Section ElementWise.
Context {A : Type} `{Number A}.
Variable s : list nat.

Lemma XYZ_to_xyY_elements (ts : list (A * A * A)) :
  length ts = size_of s ->
  XYZ_to_xyY (of_triples s ts) = Ok (of_triples s (map XYZ_to_xyY_element ts)).
Proof.
  intros Hts. unfold XYZ_to_xyY, of_triples.
  eval_rows Hts (@row3_length A) (of_int 0).
  f_equal. apply of_rows_ext. intros [[X Y] Z]. reflexivity.
Qed.

Lemma XYZ_to_uv_elements (ts : list (A * A * A)) :
  length ts = size_of s ->
  XYZ_to_uv (of_triples s ts) = Ok (of_pairs s (map XYZ_to_uv_element ts)).
Proof.
  intros Hts. unfold XYZ_to_uv, of_triples, of_pairs.
  eval_rows Hts (@row3_length A) (of_int 0).
  f_equal. apply of_rows_ext. intros [[X Y] Z]. reflexivity.
Qed.

Lemma xyY_to_XYZ_elements (ts : list (A * A * A)) :
  length ts = size_of s ->
  xyY_to_XYZ (of_triples s ts) = Ok (of_triples s (map xyY_to_XYZ_element ts)).
Proof.
  intros Hts. unfold xyY_to_XYZ, of_triples.
  eval_rows Hts (@row3_length A) (of_int 0).
  f_equal. apply of_rows_ext. intros [[x y] Y]. reflexivity.
Qed.

Lemma Luv_uv_to_xy_elements (ts : list (A * A)) :
  length ts = size_of s ->
  Luv_uv_to_xy (of_pairs s ts) = Ok (of_pairs s (map Luv_uv_to_xy_element ts)).
Proof.
  intros Hts. unfold Luv_uv_to_xy, of_pairs.
  eval_rows Hts (@row2_length A) (of_int 0).
  f_equal. apply of_rows_ext. intros [u v]. reflexivity.
Qed.

Lemma Luv_to_XYZ_elements `{Power A} (ts : list (A * A * A)) :
  length ts = size_of s ->
  Luv_to_XYZ (of_triples s ts) = Ok (of_triples s (map Luv_to_XYZ_element ts)).
Proof.
  intros Hts. unfold Luv_to_XYZ, of_triples.
  eval_rows Hts (@row3_length A) (of_int 0).
  f_equal. apply of_rows_ext. intros [[L u] v]. reflexivity.
Qed.
End ElementWise.

(* ===================================================================== *)
(** * binary64: order and division by zero                                *)
(* ===================================================================== *)

Lemma SFcompare_finite (s1 : bool) (m1 : positive) (e1 : Z)
  (s2 : bool) (m2 : positive) (e2 : Z) :
  SFcompare (S754_finite s1 m1 e1) (S754_finite s2 m2 e2) =
  Some match s1, s2 with
       | true, false => Lt
       | false, true => Gt
       | false, false =>
           match Z.compare e1 e2 with
           | Lt => Lt | Gt => Gt | Eq => Pos.compare m1 m2
           end
       | true, true =>
           match Z.compare e1 e2 with
           | Lt => Gt | Gt => Lt | Eq => CompOpp (Pos.compare m1 m2)
           end
       end.
Proof. reflexivity. Qed.

(** Splits on every integer comparison in sight. *)
Ltac compare_cases :=
  repeat match goal with
    | H : context [Z.compare ?a ?b] |- _ => destruct (Z.compare_spec a b)
    | |- context [Z.compare ?a ?b] => destruct (Z.compare_spec a b)
    | H : context [Pos.compare ?a ?b] |- _ => destruct (Pos.compare_spec a b)
    | |- context [Pos.compare ?a ?b] => destruct (Pos.compare_spec a b)
    end.

(** Decides a statement about the comparison of up to three
    specification floats by going through their forms and signs. *)
Ltac spec_float_order :=
  unfold SFleb, SFltb, SFeqb;
  repeat match goal with
    | f : spec_float |- _ => destruct f as [[|]|[|]| |[|] ? ?]
    end;
  rewrite ?SFcompare_finite; cbn [SFcompare];
  intros; try discriminate; try reflexivity;
  compare_cases; cbn in *; subst;
  try discriminate; try reflexivity; try lia.

Lemma SFleb_trans (a b c : spec_float) :
  SFleb a b = true -> SFleb b c = true -> SFleb a c = true.
Proof. spec_float_order. Qed.

Lemma SFleb_ltb_trans (a b c : spec_float) :
  SFleb a b = true -> SFltb b c = true -> SFltb a c = true.
Proof. spec_float_order. Qed.

Lemma SFltb_leb (a b : spec_float) : SFltb a b = true -> SFleb a b = true.
Proof. spec_float_order. Qed.

Lemma SFleb_total (a b : spec_float) :
  SFeqb a a = true -> SFeqb b b = true -> SFleb b a = negb (SFltb a b).
Proof. spec_float_order. Qed.

Lemma SFleb_number (a b : spec_float) :
  SFleb a b = true -> SFeqb a a = true /\ SFeqb b b = true.
Proof.
  unfold SFleb, SFeqb.
  destruct a as [[|]|[|]| |[|] ma ea], b as [[|]|[|]| |[|] mb eb];
    rewrite ?SFcompare_finite; cbn [SFcompare]; intros; try discriminate;
    rewrite ?Z.compare_refl, ?Pos.compare_refl; split; reflexivity.
Qed.

Lemma SFltb_number (a b : spec_float) :
  SFltb a b = true -> SFeqb a a = true /\ SFeqb b b = true.
Proof. intros Hlt. apply SFleb_number. now apply SFltb_leb. Qed.

Theorem float_OrderLaws : OrderLaws float.
Proof.
  split; unfold isnan; cbn [leb ltb eqb float_Number]; intros *;
    rewrite ?FloatAxioms.leb_spec, ?FloatAxioms.ltb_spec, ?FloatAxioms.eqb_spec.
  - intros Hle. apply SFleb_number in Hle as [-> ->]. split; reflexivity.
  - intros Hlt. apply SFltb_number in Hlt as [-> ->]. split; reflexivity.
  - apply SFleb_trans.
  - apply SFleb_ltb_trans.
  - apply SFltb_leb.
  - intros Ha Hb. apply SFleb_total.
    + now destruct (SFeqb (Prim2SF a) (Prim2SF a)).
    + now destruct (SFeqb (Prim2SF b) (Prim2SF b)).
Qed.

(** The specification float behind a NaN, a zero, an infinity. *)
Lemma float_isnan_spec (x : float) :
  isnan x = match Prim2SF x with S754_nan => true | _ => false end.
Proof.
  unfold isnan. cbn [eqb float_Number]. rewrite FloatAxioms.eqb_spec.
  unfold SFeqb. destruct (Prim2SF x) as [[|]|[|]| |[|] m e];
    rewrite ?SFcompare_finite; cbn [SFcompare];
    rewrite ?Z.compare_refl, ?Pos.compare_refl; reflexivity.
Qed.

Lemma float_is_zero_spec (x : float) :
  PrimFloat.eqb x 0 = match Prim2SF x with S754_zero _ => true | _ => false end.
Proof.
  rewrite FloatAxioms.eqb_spec. change (Prim2SF 0) with (S754_zero false).
  unfold SFeqb. now destruct (Prim2SF x) as [[|]|[|]| |[|] m e].
Qed.

Lemma float_is_infinity_spec (x : float) :
  is_infinity x = match Prim2SF x with S754_infinity _ => true | _ => false end.
Proof.
  unfold is_infinity. rewrite FloatAxioms.eqb_spec, abs_spec.
  change (Prim2SF infinity) with (S754_infinity false).
  unfold SFeqb. now destruct (Prim2SF x) as [[|]|[|]| |[|] m e].
Qed.

(** IEEE division by a zero: NaN for a zero or NaN numerator, an infinity
    for every other numerator. *)
Lemma float_div_zero (n d : float) :
  PrimFloat.eqb d 0 = true ->
  isnan (n / d)%float = (isnan n || PrimFloat.eqb n 0)
  /\ is_infinity (n / d)%float = negb (isnan n || PrimFloat.eqb n 0).
Proof.
  rewrite !float_isnan_spec, !float_is_zero_spec, float_is_infinity_spec.
  rewrite div_spec. unfold SF64div.
  destruct (Prim2SF d) as [sd|sd| |sd md ed]; try discriminate. intros _.
  destruct (Prim2SF n) as [sn|sn| |sn mn en]; split; reflexivity.
Qed.

(* ===================================================================== *)
(** * Searching a partitioned buffer                                      *)
(* ===================================================================== *)

Section Partition.
Context {T : Type}.
Variable P : T -> bool.

Lemma prefix_len_le (l : list T) : prefix_len P l <= length l.
Proof.
  induction l as [|x l IH]; simpl; [lia|].
  destruct (P x); simpl; lia.
Qed.

Lemma prefix_len_true (l : list T) (i : nat) (d : T) :
  i < prefix_len P l -> P (nth i l d) = true.
Proof.
  revert i. induction l as [|x l IH]; intros i Hi; simpl in *; [lia|].
  destruct (P x) eqn:Px; [|lia].
  destruct i as [|i]; [exact Px|]. apply IH. lia.
Qed.

Lemma partitioned_false (l : list T) (i : nat) (d : T) :
  partitioned P l -> prefix_len P l <= i < length l -> P (nth i l d) = false.
Proof.
  unfold partitioned. intros Hp [Hlo Hhi].
  rewrite forallb_forall in Hp.
  apply negb_true_iff, Hp.
  replace i with (prefix_len P l + (i - prefix_len P l)) by lia.
  rewrite <- nth_skipn. apply nth_In. rewrite length_skipn. lia.
Qed.

Lemma partitioned_cons (x : T) (l : list T) :
  partitioned P (x :: l) <->
  if P x then partitioned P l else forallb (fun y => negb (P y)) (x :: l) = true.
Proof.
  unfold partitioned. simpl. destruct (P x) eqn:Px; simpl; rewrite ?Px; reflexivity.
Qed.

(** On a partitioned list the elements satisfying [P] are the prefix. *)
Lemma filter_partitioned (l : list T) :
  partitioned P l -> filter P l = firstn (prefix_len P l) l.
Proof.
  induction l as [|x l IH]; intros Hp; [reflexivity|].
  apply partitioned_cons in Hp. simpl. destruct (P x) eqn:Px.
  - simpl. f_equal. now apply IH.
  - simpl. simpl in Hp. rewrite Px in Hp. simpl in Hp.
    clear -Hp. induction l as [|y l IH]; [reflexivity|].
    simpl in *. apply andb_true_iff in Hp as [Hy Hl].
    apply negb_true_iff in Hy. rewrite Hy. now apply IH.
Qed.

Lemma filter_none (l : list T) :
  forallb (fun y => negb (P y)) l = true -> filter (fun y => negb (P y)) l = l.
Proof.
  induction l as [|y l IH]; [reflexivity|].
  simpl. intros Hp. apply andb_true_iff in Hp as [Hy Hl].
  rewrite Hy. f_equal. now apply IH.
Qed.

(** ... and the others are what follows it. *)
Lemma filter_not_partitioned (l : list T) :
  partitioned P l -> filter (fun y => negb (P y)) l = skipn (prefix_len P l) l.
Proof.
  induction l as [|x l IH]; intros Hp; [reflexivity|].
  apply partitioned_cons in Hp.
  change (prefix_len P (x :: l)) with (if P x then S (prefix_len P l) else 0).
  destruct (P x) eqn:Px.
  - simpl. rewrite Px. simpl. now apply IH.
  - now apply filter_none.
Qed.

Lemma firstn_partitioned (l : list T) (k : nat) :
  partitioned P l ->
  partitioned P (firstn k l)
  /\ prefix_len P (firstn k l) = Nat.min k (prefix_len P l).
Proof.
  revert k. induction l as [|x l IH]; intros k Hp.
  - rewrite firstn_nil. simpl. split; [reflexivity | lia].
  - destruct k as [|k]; [split; reflexivity|].
    apply partitioned_cons in Hp. rewrite firstn_cons.
    rewrite partitioned_cons.
    change (prefix_len P (x :: firstn k l))
      with (if P x then S (prefix_len P (firstn k l)) else 0).
    change (prefix_len P (x :: l)) with (if P x then S (prefix_len P l) else 0).
    destruct (P x) eqn:Px.
    + destruct (IH k Hp) as [H1 H2]. split; [exact H1|]. rewrite H2. reflexivity.
    + split; [|reflexivity].
      rewrite forallb_forall in *. intros y [<-|Hy].
      * apply Hp. now left.
      * apply Hp. right. rewrite <- (firstn_skipn k l).
        apply in_or_app. now left.
Qed.
End Partition.

Lemma filter_andb {T : Type} (P Q : T -> bool) (l : list T) :
  filter (fun x => P x && Q x) l = filter P (filter Q l).
Proof.
  induction l as [|x l IH]; [reflexivity|]. simpl.
  destruct (Q x); simpl.
  - rewrite IH. now rewrite andb_true_r.
  - now rewrite andb_false_r.
Qed.

(** The elements between the two boundaries of a doubly partitioned list:
    what the slice [low:high] holds. *)
Lemma filter_between {T : Type} (P1 P2 : T -> bool) (l : list T) :
  partitioned P1 l -> partitioned P2 l ->
  filter (fun x => negb (P1 x) && P2 x) l
  = firstn (Nat.max (prefix_len P1 l) (prefix_len P2 l) - prefix_len P1 l)
           (skipn (prefix_len P1 l) l).
Proof.
  intros H1 H2.
  rewrite (filter_andb (fun x => negb (P1 x)) P2).
  rewrite (filter_partitioned H2).
  destruct (firstn_partitioned (prefix_len P2 l) H1) as [H3 H4].
  rewrite (filter_not_partitioned H3), H4.
  rewrite skipn_firstn_comm.
  destruct (Nat.le_ge_cases (prefix_len P1 l) (prefix_len P2 l)) as [Hle|Hge].
  - rewrite Nat.min_r, Nat.max_r by lia. reflexivity.
  - rewrite Nat.min_l, Nat.max_l by lia.
    rewrite !Nat.sub_diag. reflexivity.
Qed.

Section SearchSorted.
Context {A : Type} `{Number A}.
Variable a : list A.
Variable key : A.

Local Abbreviation before_key := (fun w : A => npy_lt w key).

(** The binary search finds the boundary of a partitioned buffer. *)
Lemma binsearch_left_partitioned (lo hi : nat) :
  partitioned before_key a ->
  lo <= prefix_len before_key a <= hi -> hi <= length a ->
  binsearch_left a key lo hi = prefix_len before_key a.
Proof.
  intros Hp. funelim (binsearch_left a key lo hi); intros Hr Hhi.
  - lia.
  - clear Heqcall. apply H0; [exact Hp | split; [|lia] | exact Hhi].
    destruct (Nat.lt_ge_cases (lo + Nat.div2 (hi - lo)) (prefix_len before_key a))
      as [Hlt|Hge]; [lia|].
    assert (Hd : Nat.div2 (hi - lo) < hi - lo) by (apply Nat.lt_div2; lia).
    rewrite (@partitioned_false _ _ _ _ key Hp) in Heq; [discriminate|].
    revert Hd Hge. generalize (Nat.div2 (hi - lo)). intros; lia.
  - clear Heqcall.
    assert (Hd : Nat.div2 (hi - lo) < hi - lo) by (apply Nat.lt_div2; lia).
    apply H0; [exact Hp | split; [lia|] | ].
    + destruct (Nat.lt_ge_cases (lo + Nat.div2 (hi - lo))
                                (prefix_len before_key a)) as [Hlt|Hge]; [|lia].
      rewrite (@prefix_len_true _ _ _ _ key Hlt) in Heq. discriminate.
    + revert Hd. generalize (Nat.div2 (hi - lo)). intros; lia.
Qed.

Hypothesis laws : OrderLaws A.

(** A number not above an element that sorts before the key sorts before
    the key as well. *)
Lemma npy_lt_downward (x y : A) :
  leb x y = true -> npy_lt y key = true -> npy_lt x key = true.
Proof.
  unfold npy_lt. intros Hxy Hy.
  destruct (leb_number laws _ _ Hxy) as [Hx _].
  apply orb_true_iff in Hy as [Hy|Hy].
  - now rewrite (leb_ltb_trans laws _ _ _ Hxy Hy).
  - apply andb_true_iff in Hy as [Hk _]. rewrite Hk, Hx. apply orb_true_r.
Qed.

Lemma sorted_partitioned :
  StronglySorted (fun x y => leb x y = true) a -> partitioned before_key a.
Proof.
  induction 1 as [|x l Hs IH Hx]; [reflexivity|].
  apply partitioned_cons. destruct (npy_lt x key) eqn:Px; [exact IH|].
  simpl. rewrite Px. simpl.
  apply forallb_forall. intros y Hy. apply negb_true_iff.
  destruct (npy_lt y key) eqn:Py; [|reflexivity].
  rewrite Forall_forall in Hx.
  rewrite (npy_lt_downward _ _ (Hx y Hy) Py) in Px. discriminate.
Qed.

(** [np.searchsorted] on a sorted 1-d array: the number of elements that
    sort before the key. *)
Lemma np_searchsorted_sorted :
  StronglySorted (fun x y => leb x y = true) a ->
  np_searchsorted (mk_ndarray [length a] a) key
  = Ok (prefix_len before_key a).
Proof.
  intros Hs. unfold np_searchsorted. simpl. f_equal.
  apply binsearch_left_partitioned.
  - now apply sorted_partitioned.
  - split; [lia | apply prefix_len_le].
  - lia.
Qed.
End SearchSorted.

(* ===================================================================== *)
(** * The maximum reduction                                               *)
(* ===================================================================== *)

Section Maximum.
Context {A : Type} `{Number A}.
Hypothesis laws : OrderLaws A.

Lemma leb_refl_number (x : A) : isnan x = false -> leb x x = true.
Proof.
  intros Hx. pose proof (leb_total laws x x Hx Hx) as Ht.
  destruct (ltb x x) eqn:E.
  - now apply (ltb_leb laws).
  - exact Ht.
Qed.

Lemma scalar_max_cases (acc v : A) :
  isnan acc = false -> isnan v = false ->
  (scalar_max acc v = acc /\ leb v acc = true)
  \/ (scalar_max acc v = v /\ leb acc v = true).
Proof.
  intros Hacc Hv. unfold scalar_max. rewrite Hacc, orb_false_r.
  destruct (leb v acc) eqn:E; [left; split; reflexivity|].
  right. split; [reflexivity|].
  rewrite (leb_total laws acc v Hacc Hv) in E.
  apply negb_false_iff in E. now apply (ltb_leb laws).
Qed.

(** Without NaN the reduction returns an element that no other exceeds. *)
Lemma fold_scalar_max (l : list A) (x : A) :
  (forall v, In v (x :: l) -> isnan v = false) ->
  In (fold_left scalar_max l x) (x :: l)
  /\ forall v, In v (x :: l) -> leb v (fold_left scalar_max l x) = true.
Proof.
  revert x. induction l as [|y l IH]; intros x Hnum.
  - simpl. split; [now left|].
    intros v [<-|[]]. apply leb_refl_number. apply Hnum. now left.
  - assert (Hx : isnan x = false) by (apply Hnum; now left).
    assert (Hy : isnan y = false) by (apply Hnum; right; now left).
    cbn [fold_left].
    destruct (scalar_max_cases x y Hx Hy) as [[-> Hle]|[-> Hle]].
    + destruct (IH x) as [Hin Hmax].
      { intros v [<-|Hv]; [exact Hx | apply Hnum; right; now right]. }
      split.
      * destruct Hin as [<-|Hin]; [now left | right; now right].
      * intros v [<-|[<-|Hv]].
        -- apply Hmax. now left.
        -- apply (leb_trans laws _ _ _ Hle). apply Hmax. now left.
        -- apply Hmax. now right.
    + destruct (IH y) as [Hin Hmax].
      { intros v Hv. apply Hnum. now right. }
      split.
      * now right.
      * intros v [<-|Hv].
        -- apply (leb_trans laws _ _ _ Hle). apply Hmax. now left.
        -- now apply Hmax.
Qed.

Lemma np_max_is_maximum (a : ndarray A) (m : A) :
  (forall v, In v (data a) -> isnan v = false) ->
  np_max a = Ok m ->
  In m (data a) /\ forall v, In v (data a) -> leb v m = true.
Proof.
  unfold np_max. destruct (data a) as [|x l]; [discriminate|].
  intros Hnum E. injection E as <-. now apply fold_scalar_max.
Qed.

(** A NaN met by the reduction stays: the maximum of an array that holds a
    NaN is a NaN. *)
Lemma scalar_max_nan (acc v : A) :
  isnan acc = true \/ isnan v = true -> isnan (scalar_max acc v) = true.
Proof.
  unfold scalar_max. intros [Hacc|Hv].
  - now rewrite Hacc, orb_true_r.
  - destruct (leb v acc) eqn:E.
    + destruct (leb_number laws _ _ E) as [Hnum _]. congruence.
    + cbn [orb]. now destruct (isnan acc) eqn:Hacc.
Qed.

Lemma fold_scalar_max_nan (l : list A) (x : A) :
  (exists v, In v (x :: l) /\ isnan v = true) ->
  isnan (fold_left scalar_max l x) = true.
Proof.
  revert x. induction l as [|a l IH]; intros x (v & Hin & Hv).
  - destruct Hin as [<-|[]]. exact Hv.
  - cbn [fold_left]. apply IH. destruct Hin as [<-|[<-|Hin]].
    + exists (scalar_max x a). split; [now left|]. apply scalar_max_nan. now left.
    + exists (scalar_max x a). split; [now left|]. apply scalar_max_nan. now right.
    + exists v. split; [now right | exact Hv].
Qed.

Lemma np_max_nan (a : ndarray A) (m : A) :
  (exists v, In v (data a) /\ isnan v = true) ->
  np_max a = Ok m -> isnan m = true.
Proof.
  unfold np_max. destruct (data a) as [|x l]; [discriminate|].
  intros Hnan E. injection E as <-. now apply fold_scalar_max_nan.
Qed.
End Maximum.

(* ===================================================================== *)
(** * Spectra                                                             *)
(* ===================================================================== *)

Section Pairs.
Context {W A : Type}.
Variable P : W -> bool.

Lemma prefix_len_combine (ws : list W) (vs : list A) :
  length ws = length vs ->
  prefix_len (fun p => P (fst p)) (combine ws vs) = prefix_len P ws.
Proof.
  revert vs. induction ws as [|w ws IH]; intros [|v vs] Hl; try discriminate;
    [reflexivity|].
  simpl. destruct (P w); [|reflexivity]. f_equal. apply IH. simpl in Hl. lia.
Qed.

Lemma forallb_combine (ws : list W) (vs : list A) :
  forallb (fun w => negb (P w)) ws = true ->
  forallb (fun p : W * A => negb (P (fst p))) (combine ws vs) = true.
Proof.
  revert vs. induction ws as [|w ws IH]; intros [|v vs] Hw; try reflexivity.
  simpl in *. apply andb_true_iff in Hw as [-> Hw]. simpl. now apply IH.
Qed.

Lemma partitioned_combine (ws : list W) (vs : list A) :
  length ws = length vs ->
  partitioned P ws -> partitioned (fun p => P (fst p)) (combine ws vs).
Proof.
  revert vs. induction ws as [|w ws IH]; intros [|v vs] Hl Hp; try discriminate;
    [reflexivity|].
  simpl combine. apply partitioned_cons. apply partitioned_cons in Hp.
  cbn [fst]. destruct (P w) eqn:Pw.
  - apply IH; [simpl in Hl; lia | exact Hp].
  - change (v :: vs) with ([v] ++ vs) in *.
    apply (forallb_combine (w :: ws) (v :: vs)). exact Hp.
Qed.

Lemma map_snd_combine (ws : list W) (vs : list A) :
  length ws = length vs -> map snd (combine ws vs) = vs.
Proof.
  revert vs. induction ws as [|w ws IH]; intros [|v vs] Hl; try discriminate;
    [reflexivity|].
  simpl. f_equal. apply IH. simpl in Hl. lia.
Qed.
End Pairs.

Section Normalize.
Context {W A : Type} `{Number W} `{Number A}.
Hypothesis laws : OrderLaws W.
Hypothesis low_edge : isnan (of_int 400 : W) = false.
Hypothesis high_edge : isnan (of_int 700 : W) = false.

(** The band in terms of the order the search uses. *)
Lemma in_visible_band_npy_lt (w : W) :
  in_visible_band w
  = negb (npy_lt w (of_int 400)) && npy_lt w (of_int 700).
Proof.
  unfold in_visible_band, npy_lt.
  rewrite low_edge, high_edge. cbn [andb]. rewrite !orb_false_r.
  destruct (ltb w (of_int 700)) eqn:E; [|now rewrite !andb_false_r].
  rewrite !andb_true_r.
  destruct (ltb_number laws _ _ E) as [Hw _].
  apply (leb_total laws); assumption.
Qed.

(** The slice between the two searched positions holds the values of the
    band. *)
Lemma visible_slice (ws : list W) (vs : list A) :
  length ws = length vs ->
  StronglySorted (fun x y => leb x y = true) ws ->
  let low := prefix_len (fun w => npy_lt w (of_int 400)) ws in
  let high := prefix_len (fun w => npy_lt w (of_int 700)) ws in
  firstn (Nat.max low high - low) (skipn low vs)
  = band_values in_visible_band ws vs.
Proof.
  intros Hl Hs low high. unfold band_values.
  rewrite (filter_ext _ (fun p : W * A =>
             negb (npy_lt (fst p) (of_int 400)) && npy_lt (fst p) (of_int 700)))
    by (intros p; apply in_visible_band_npy_lt).
  rewrite (@filter_between _ (fun p : W * A => npy_lt (fst p) (of_int 400))
                             (fun p : W * A => npy_lt (fst p) (of_int 700))).
  - rewrite (prefix_len_combine (fun w => npy_lt w (of_int 400)) _ _ Hl).
    rewrite (prefix_len_combine (fun w => npy_lt w (of_int 700)) _ _ Hl).
    rewrite <- firstn_map, <- skipn_map, (map_snd_combine _ _ Hl).
    reflexivity.
  - apply (@partitioned_combine _ _ (fun w => npy_lt w (of_int 400)) _ _ Hl).
    now apply sorted_partitioned.
  - apply (@partitioned_combine _ _ (fun w => npy_lt w (of_int 700)) _ _ Hl).
    now apply sorted_partitioned.
Qed.

Lemma normalize_spectrum_sorted (ws : list W) (vs : list A)
  (meta : list (string * string)) (peak : A) :
  length ws = length vs ->
  StronglySorted (fun x y => leb x y = true) ws ->
  np_max (mk_ndarray [length (band_values in_visible_band ws vs)]
                     (band_values in_visible_band ws vs)) = Ok peak ->
  normalize_spectrum
    (Spectrum.make (mk_ndarray [length ws] ws) (mk_ndarray [length ws] vs) meta)
  = Ok (Spectrum.make (mk_ndarray [length ws] ws)
                      (mk_ndarray [length ws] (map (fun v => div v peak) vs))
                      []).
Proof.
  intros Hl Hs Hpeak. unfold normalize_spectrum. cbn [Spectrum.wavelengths Spectrum.values].
  rewrite !(np_searchsorted_sorted _ laws Hs). cbn [bind].
  unfold getslice. cbn [shape data bind size_of fold_right].
  pose proof (prefix_len_le (fun w => npy_lt w (of_int 400)) ws) as Hlow.
  pose proof (prefix_len_le (fun w => npy_lt w (of_int 700)) ws) as Hhigh.
  rewrite (Nat.min_l _ _ Hlow), (Nat.min_l _ _ Hhigh), !Nat.mul_1_r.
  rewrite (@visible_slice ws vs Hl Hs).
  unfold np_max in *. cbn [data] in *.
  destruct (band_values in_visible_band ws vs) as [|v0 rest]; [discriminate|].
  injection Hpeak as Hpeak. cbn [bind]. rewrite Hpeak.
  unfold arr, py.
  assert (Hdiv : lift2 div (Ok (mk_ndarray [length ws] vs)) (Ok (scalar peak))
                 = Ok (mk_ndarray [length ws] (map (fun v => div v peak) vs))).
  { rewrite <- (map_id vs) at 1.
    apply (lift2_pw_scalar [length ws] vs). simpl. lia. }
  rewrite Hdiv. reflexivity.
Qed.
End Normalize.

(* ===================================================================== *)
(** * Luv to XYZ                                                          *)
(* ===================================================================== *)

(** C1.  For every array of (L, u, v) triples (a well-formed array whose
    trailing axis has length 3, whatever its leading axes), [Luv_to_XYZ]
    returns the array of the same shape that holds, for each triple, the
    X, Y, Z of [Luv_to_XYZ_element]: Y by the piecewise rule --
    [((L + 16) / 116) ** 3] when [L > CIE_E * CIE_K], [L / CIE_K]
    otherwise, with [CIE_K = 24389 / 27] and [CIE_E = 216 / 24389] -- and
    X, Z from Y and the D50 white [X_r = 9642/10000], [Y_r = 1],
    [Z_r = 8251/10000]. *)
Theorem Luv_to_XYZ_piecewise {A : Type} `{Number A} `{Power A}
  (Luv : ndarray A) (s : list nat) :
  well_formed Luv -> shape Luv = s ++ [3] ->
  Luv_to_XYZ Luv
  = Ok (of_triples s (map Luv_to_XYZ_element (to_triples (data Luv))))
  /\ (forall L u v : A,
        snd (fst (Luv_to_XYZ_element (L, u, v)))
        = if ltb (div (of_int 216) (of_int 24389) * div (of_int 24389) (of_int 27))%num L
          then pow (div (add L (of_int 16)) (of_int 116)) 3
          else div L (div (of_int 24389) (of_int 27))).
Proof.
  intros Hwf Hs. split.
  - destruct (@array_of_triples _ Luv s Hwf Hs) as [E Hlen].
    rewrite E at 1. now apply Luv_to_XYZ_elements.
  - intros L u v. reflexivity.
Qed.

(** The rule applies at a 1 x 3 array of rationals. *)
Lemma Luv_to_XYZ_piecewise_witness :
  let Luv : ndarray Qc :=
    mk_ndarray [1; 3] [Q2Qc 50%Q; Q2Qc (1 # 5)%Q; Q2Qc (2 # 5)%Q] in
  well_formed Luv /\ shape Luv = [1] ++ [3]
  /\ Luv_to_XYZ Luv
     = Ok (of_triples [1] (map Luv_to_XYZ_element (to_triples (data Luv)))).
Proof.
  intros Luv. split; [reflexivity|]. split; [reflexivity|].
  apply (@Luv_to_XYZ_piecewise Qc _ _ Luv [1]); reflexivity.
Defined.

(** On binary64 the threshold is exactly 8 and the white point is the
    source's literals. *)
Lemma float_Luv_constants :
  (mul CIE_E CIE_K : float) = 8%float
  /\ (X_r : float) = 0x1.edab9f559b3dp-1%float
  /\ (Y_r : float) = 1%float
  /\ (Z_r : float) = 0x1.a67381d7dbf48p-1%float.
Proof. repeat split; reflexivity. Qed.

(* ===================================================================== *)
(** * The stubs                                                           *)
(* ===================================================================== *)

(** C8.  [XYZ_to_RGB] and [XYZ_to_sRGB] are unimplemented: whatever the
    argument and the module namespace, the call returns [None] and leaves
    the namespace as it was. *)
Theorem RGB_stubs_return_None {A : Type} `{Number A} (XYZ : ndarray A)
  (g : globals) :
  XYZ_to_RGB XYZ g = (Ok None, g) /\ XYZ_to_sRGB XYZ g = (Ok None, g).
Proof. split; reflexivity. Qed.

(* ===================================================================== *)
(** * xy to xyY                                                           *)
(* ===================================================================== *)

Lemma tuple_last_app {T : Type} (s : list T) (n : T) : tuple_last (s ++ [n]) = Ok n.
Proof. unfold tuple_last. now rewrite rev_app_distr. Qed.

Lemma np_stack_shape {A : Type} (a0 : ndarray A) (others : list (ndarray A))
  (axis : nat) (r : ndarray A) :
  np_stack (a0 :: others) axis = Ok r ->
  shape r = firstn axis (shape a0) ++ S (length others) :: skipn axis (shape a0).
Proof.
  unfold np_stack.
  destruct (negb _); [discriminate|].
  destruct (ndim a0 <? axis); [discriminate|].
  intros E. injection E as <-. reflexivity.
Qed.

(** C10.  [xy_to_xyY] returns an input whose trailing axis has length 3 as
    it is, whatever [Y]; and applying it twice, with any two [Y], gives what
    applying it once gives -- for every input, so in particular for those
    whose trailing axis has length 2. *)
Theorem xy_to_xyY_idempotent {A : Type} `{Number A} (xy Y1 Y2 : ndarray A) :
  (forall s, shape xy = s ++ [3] -> xy_to_xyY xy Y1 = Ok xy)
  /\ (r <- xy_to_xyY xy Y1 ;; xy_to_xyY r Y2) = xy_to_xyY xy Y1.
Proof.
  assert (Hthree : forall (a Y : ndarray A) s,
             shape a = s ++ [3] -> xy_to_xyY a Y = Ok a).
  { intros a Y s Hs. unfold xy_to_xyY. rewrite Hs, tuple_last_app. reflexivity. }
  split; [apply Hthree|].
  destruct (xy_to_xyY xy Y1) as [r|e] eqn:E; [|reflexivity].
  cbn [bind]. unfold xy_to_xyY in E.
  destruct (tuple_last (shape xy)) as [last|] eqn:Hlast; [|discriminate].
  cbn [bind] in E.
  destruct (last =? 3) eqn:Hl.
  - injection E as <-. unfold xy_to_xyY. rewrite Hlast. cbn [bind].
    now rewrite Hl.
  - destruct (getitem_last xy 0) as [x|]; [|discriminate].
    destruct (getitem_last xy 1) as [y|]; [|discriminate].
    cbn [bind] in E.
    destruct (lift2 mul (arr (np_ones (shape x))) (arr Y1)) as [Y|];
      [|discriminate].
    cbn [bind] in E. apply np_stack_shape in E.
    rewrite firstn_all, skipn_all in E.
    now apply (Hthree r Y2 (shape x)).
Qed.

(** Two applications of [xy_to_xyY] to a 2 x 2 array of pairs, with
    different [Y]: the second changes nothing. *)
Lemma xy_to_xyY_idempotent_witness :
  let xy := mk_ndarray [2; 2] [0.25; 0.5; 0.125; 0.75]%float in
  xy_to_xyY xy (scalar 7%float)
  = Ok (mk_ndarray [2; 3] [0.25; 0.5; 7; 0.125; 0.75; 7]%float)
  /\ (r <- xy_to_xyY xy (scalar 7%float) ;; xy_to_xyY r (scalar 9%float))
     = xy_to_xyY xy (scalar 7%float).
Proof.
  intros xy. split; [reflexivity|].
  exact (proj2 (xy_to_xyY_idempotent xy (scalar 7%float) (scalar 9%float))).
Defined.

(* ===================================================================== *)
(** * xyY to xy                                                           *)
(* ===================================================================== *)

(** What holds of [xyY_to_xy]: an array of pairs comes back as it is. *)
Lemma xyY_to_xy_pairs {A : Type} `{Number A} (xy : ndarray A) (s : list nat) :
  shape xy = s ++ [2] -> xyY_to_xy xy = Ok xy.
Proof.
  intros Hs. unfold xyY_to_xy. rewrite Hs, tuple_last_app. reflexivity.
Qed.

(** ... and a single triple gives its first two components. *)
Lemma xyY_to_xy_triple {A : Type} `{Number A} (x y Y : A) :
  xyY_to_xy (mk_ndarray [3] [x; y; Y]) = Ok (mk_ndarray [2] [x; y]).
Proof. reflexivity. Qed.

(** Any grid of [n] triples with [n] other than 3 makes [xyY_to_xy]
    raise. *)
Lemma xyY_to_xy_grid_raises {A : Type} `{Number A} (n : nat) (d : list A) :
  n <> 3 ->
  exists msg, xyY_to_xy (mk_ndarray [n; 3] d) = Raise (ValueError msg).
Proof.
  intros Hn. unfold xyY_to_xy. cbn [shape tuple_last rev app bind Nat.eqb].
  unfold iter_first. cbn [shape data bind].
  pose proof (chunk_length (size_of [3]) d n) as Hlen.
  rewrite <- (length_map (mk_ndarray [3])) in Hlen.
  destruct (map (mk_ndarray [3]) (chunk (size_of [3]) d n))
    as [|a [|b [|c [|e l]]]]; cbn in Hlen; try (exfalso; lia);
    cbn [unpack3 bind]; eexists; reflexivity.
Qed.

(** C5.  [xyY_to_xy] unpacks its argument along the first axis, not the
    trailing one.  A 2 x 3 grid of triples raises (two rows cannot be
    unpacked into [x, y, Y]), and so does [XYZ_to_xy] on such a grid; a
    3 x 3 grid comes back with its first two rows as columns instead of
    the x and y of each triple. *)
Theorem xyY_to_xy_unpacks_first_axis {A : Type} `{Number A}
  (a b c d e f g h i : A) :
  xyY_to_xy (mk_ndarray [2; 3] [a; b; c; d; e; f])
  = Raise (ValueError "not enough values to unpack (expected 3, got 2)")
  /\ XYZ_to_xy (mk_ndarray [2; 3] [a; b; c; d; e; f])
     = Raise (ValueError "not enough values to unpack (expected 3, got 2)")
  /\ xyY_to_xy (mk_ndarray [3; 3] [a; b; c; d; e; f; g; h; i])
     = Ok (mk_ndarray [3; 2] [a; d; b; e; c; f]).
Proof. repeat split; reflexivity. Qed.

(* ===================================================================== *)
(** * The optional dependency                                             *)
(* ===================================================================== *)

(** C4.  With the colour package absent the module imports, and its
    namespace has no [colour].  From there [CIEXYZ.from_spectrum] and
    [CIEXYZ.to_xy] raise the [ImportError] of [check_colour]; but
    [CIELUV.to_uv] and [CIELUV.from_XYZ] do not call [check_colour] and
    raise a [NameError] instead. *)
Theorem missing_colour_outcomes {W A SPD Shape : Type} `{Number W} `{Number A}
  (colour : colour_module W A SPD Shape)
  (spectrum : Spectrum.t W A) (xyz : CIEXYZ.t A) (luv : CIELUV.t A) :
  let g := snd (import_module false) in
  let missing :=
    ImportError "prysm colorimetry requires the colour package, see http://colour-science.org/installation-guide/" in
  fst (import_module false) = Ok tt
  /\ in_globals "colour" g = false
  /\ CIEXYZ.from_spectrum colour spectrum g = (Raise missing, g)
  /\ CIEXYZ.to_xy colour xyz g = (Raise missing, g)
  /\ CIELUV.to_uv colour luv g
     = (Raise (NameError "name 'colour' is not defined"), g)
  /\ CIELUV.from_XYZ colour (Some xyz) None None None g
     = (Raise (NameError "name 'colour' is not defined"), g).
Proof. repeat split; reflexivity. Qed.

(** With the package installed [check_colour] passes. *)
Lemma check_colour_installed :
  check_colour (snd (import_module true)) = (Ok tt, snd (import_module true)).
Proof. reflexivity. Qed.

(** Spectra need no colour: normalising one reads no global name. *)
Lemma pure_spectrum_use :
  normalize_spectrum
    (Spectrum.__init__ (mk_ndarray [3] [380; 550; 720]%float)
                       (mk_ndarray [3] [1; 4; 2]%float))
  = Ok (Spectrum.__init__ (mk_ndarray [3] [380; 550; 720]%float)
                          (mk_ndarray [3] [0.25; 1; 0.5]%float)).
Proof. reflexivity. Qed.

(* ===================================================================== *)
(** * CIELUV.from_XYZ                                                     *)
(* ===================================================================== *)

(** C9 as the specification states it does not hold of the whole call: a
    ValueError can be raised after the argument check.  With a [ciexyz]
    that holds two colours and a package that returns one (L, u, v) row
    for each, [l, u, v = colour.XYZ_to_Luv((x, y, z))] finds two rows for
    its three targets. *)
Lemma from_XYZ_ValueError_with_ciexyz :
  ~ (forall (colour : colour_module float float unit unit)
            (ciexyz : option (CIEXYZ.t float)) (x y z : obj float)
            (g : globals),
       (exists msg,
          fst (CIELUV.from_XYZ colour ciexyz x y z g) = Raise (ValueError msg))
       <-> ciexyz = None /\ x = None /\ y = None /\ z = None).
Proof.
  intros Hc.
  destruct (Hc colour_grid_stub
               (Some (CIEXYZ.__init__
                        (Some (mk_ndarray [2] [0.25; 0.5]%float))
                        (Some (mk_ndarray [2] [0.5; 0.25]%float))
                        (Some (mk_ndarray [2] [0.25; 0.25]%float))))
               None None None (snd (import_module true))) as [Hraise _].
  destruct Hraise as [E _]; [|discriminate E].
  exists "not enough values to unpack (expected 3, got 2)". reflexivity.
Qed.

(** C9, as it holds of the code.  The argument check that opens
    [CIELUV.from_XYZ] raises exactly when [ciexyz] is [None] and [x], [y],
    [z] are all [None], and only ValueError('all values are None'); the
    call then raises it whatever the namespace and the package are.  In
    every other case the check raises nothing and the call goes on to
    [colour.XYZ_to_Luv]: with the coordinates of [ciexyz] when one is
    supplied, whatever [x], [y], [z] are, and with [x], [y], [z] as they
    are otherwise, [None] ones included; it returns [CIELUV(u, v, l)] for
    the items (l, u, v) of what the package returns, and raises what the
    package or the unpacking raises.  Where the name [colour] is not bound
    the statement after the check raises NameError, so there the call
    raises a ValueError exactly when all four arguments are [None]. *)
Theorem from_XYZ_argument_check {W A SPD Shape : Type} `{Number W} `{Number A}
  (colour : colour_module W A SPD Shape)
  (ciexyz : option (CIEXYZ.t A)) (x y z : obj A) (g : globals) :
  let all_None := ciexyz = None /\ x = None /\ y = None /\ z = None in
  let convert (xyz : obj A * obj A * obj A) : result (CIELUV.t A) * globals :=
    if in_globals "colour" g
    then (luv <- colour_XYZ_to_Luv colour xyz ;;
          items <- iter_first luv ;;
          '(l, u, v) <- unpack3 items ;;
          Ok (CIELUV.__init__ (Some u) (Some v) (Some l)), g)
    else (Raise (NameError "name 'colour' is not defined"), g) in
  ((exists e, CIELUV.from_XYZ_arguments ciexyz x y z g = (Raise e, g))
   <-> all_None)
  /\ (forall e, fst (CIELUV.from_XYZ_arguments ciexyz x y z g) = Raise e ->
                e = ValueError "all values are None")
  /\ (all_None ->
      CIELUV.from_XYZ colour ciexyz x y z g
      = (Raise (ValueError "all values are None"), g))
  /\ (forall c, ciexyz = Some c ->
      CIELUV.from_XYZ colour ciexyz x y z g
      = convert (CIEXYZ.x c, CIEXYZ.y c, CIEXYZ.z c))
  /\ (ciexyz = None -> ~ (x = None /\ y = None /\ z = None) ->
      CIELUV.from_XYZ colour ciexyz x y z g = convert (x, y, z))
  /\ (in_globals "colour" g = false ->
      ((exists msg,
          fst (CIELUV.from_XYZ colour ciexyz x y z g) = Raise (ValueError msg))
       <-> all_None)).
Proof.
  intros all_None convert.
  assert (Hconvert : forall xyz, CIELUV.from_XYZ_convert colour xyz g = convert xyz).
  { intros [[x0 y0] z0]. subst convert.
    unfold CIELUV.from_XYZ_convert, mbind, lift, ret, load_global.
    destruct (in_globals "colour" g); [|reflexivity].
    destruct (colour_XYZ_to_Luv colour (x0, y0, z0)) as [luv|e]; [|reflexivity].
    cbn [bind]. destruct (iter_first luv) as [items|e]; [|reflexivity].
    cbn [bind]. destruct (unpack3 items) as [[[l u] v]|e]; reflexivity. }
  assert (Hall : all_None ->
                 CIELUV.from_XYZ colour ciexyz x y z g
                 = (Raise (ValueError "all values are None"), g)).
  { intros (-> & -> & -> & ->). reflexivity. }
  assert (Hsome : forall c, ciexyz = Some c ->
                  CIELUV.from_XYZ colour ciexyz x y z g
                  = convert (CIEXYZ.x c, CIEXYZ.y c, CIEXYZ.z c)).
  { intros c ->. rewrite <- Hconvert. reflexivity. }
  assert (Hgiven : ciexyz = None -> ~ (x = None /\ y = None /\ z = None) ->
                   CIELUV.from_XYZ colour ciexyz x y z g = convert (x, y, z)).
  { intros -> Hnot. rewrite <- Hconvert.
    destruct x, y, z; try reflexivity. exfalso. apply Hnot. repeat split. }
  split; [split|split; [|split; [|split; [|split]]]].
  - intros [e E]. destruct ciexyz as [c|]; [discriminate|].
    destruct x, y, z; try discriminate. repeat split.
  - intros (-> & -> & -> & ->). eexists. reflexivity.
  - intros e. destruct ciexyz as [c|]; [discriminate|].
    destruct x, y, z; try discriminate. cbn. congruence.
  - exact Hall.
  - exact Hsome.
  - exact Hgiven.
  - intros Hg. split.
    + intros [msg E]. destruct ciexyz as [c|].
      * rewrite (Hsome c eq_refl) in E. subst convert. cbn beta in E.
        rewrite Hg in E. discriminate E.
      * destruct x as [x0|]; [|destruct y as [y0|]; [|destruct z as [z0|]]];
          try (rewrite Hgiven in E by (reflexivity || (intros (? & ? & ?); discriminate));
               subst convert; cbn beta in E; rewrite Hg in E; discriminate E).
        repeat split.
    + intros Hnone. rewrite (Hall Hnone). eexists. reflexivity.
Qed.

(** With [x] alone given, [from_XYZ] hands [(x, None, None)] to the
    package and stores the items of its answer (50, 0.25, 0.5) as l, u and
    v; with nothing given it raises. *)
Lemma from_XYZ_argument_check_witness :
  let g := snd (import_module true) in
  let x : obj float := Some (scalar 0.25%float) in
  CIELUV.from_XYZ colour_stub None x None None g
  = (Ok (CIELUV.make (Some (scalar 0.25%float)) (Some (scalar 0.5%float))
                     (Some (scalar 50%float))), g)
  /\ CIELUV.from_XYZ colour_stub None None None None g
     = (Raise (ValueError "all values are None"), g).
Proof.
  intros g x.
  destruct (from_XYZ_argument_check colour_stub None x None None g)
    as (_ & _ & _ & _ & Hgiven & _).
  destruct (from_XYZ_argument_check colour_stub None None None None g)
    as (_ & _ & Hall & _).
  split.
  - rewrite Hgiven; [reflexivity | reflexivity |].
    intros (E & _). discriminate E.
  - apply Hall. repeat split.
Defined.

(* ===================================================================== *)
(** * Zero denominators                                                   *)
(* ===================================================================== *)

Lemma float_zero_quotient (n d : float) :
  PrimFloat.eqb d 0 = true -> zero_quotient n (n / d)%float.
Proof. apply float_div_zero. Qed.

(** What holds of [XYZ_to_xy]: on a single triple it gives the two
    chromaticity ratios. *)
Lemma XYZ_to_xy_triple {A : Type} `{Number A} (X Y Z : A) :
  XYZ_to_xy (mk_ndarray [3] [X; Y; Z])
  = Ok (mk_ndarray [2] [div X (add (add X Y) Z); div Y (add (add X Y) Z)]).
Proof. reflexivity. Qed.

(** C2 as the specification states it does not hold: with X + Y + Z = 0
    and X, Y not zero, the ratios are infinities, not NaN. *)
Lemma zero_sum_is_not_always_nan :
  ~ (forall X Y Z : float,
       PrimFloat.eqb (X + Y + Z) 0 = true ->
       exists x y : float,
         XYZ_to_xyY (mk_ndarray [3] [X; Y; Z]) = Ok (mk_ndarray [3] [x; y; Y])
         /\ isnan x = true /\ isnan y = true).
Proof.
  intros Hc.
  destruct (Hc 1%float (-1)%float 0%float eq_refl) as (x & y & E & Hx & _).
  vm_compute in E. injection E as <- _.
  vm_compute in Hx. discriminate.
Qed.

(** C2, as it holds of the code.  On binary64 arrays of triples
    [XYZ_to_xyY], [XYZ_to_uv] and [xyY_to_XYZ] never raise: they return the
    element-wise result, zero denominators included ([XYZ_to_xy] does on a
    single triple).  Where the denominator -- X + Y + Z for xyY and xy,
    X + 15 Y + 3 Z for uv, y for XYZ -- is a zero, each quotient is NaN
    when its numerator is NaN or a zero and an infinity otherwise. *)
Theorem zero_denominator_propagates (XYZ : ndarray float) (s : list nat) :
  well_formed XYZ -> shape XYZ = s ++ [3] ->
  (XYZ_to_xyY XYZ
   = Ok (of_triples s (map XYZ_to_xyY_element (to_triples (data XYZ))))
   /\ XYZ_to_uv XYZ
      = Ok (of_pairs s (map XYZ_to_uv_element (to_triples (data XYZ))))
   /\ xyY_to_XYZ XYZ
      = Ok (of_triples s (map xyY_to_XYZ_element (to_triples (data XYZ)))))
  /\ (forall X Y Z : float,
        PrimFloat.eqb (X + Y + Z) 0 = true ->
        zero_quotient X (fst (fst (XYZ_to_xyY_element (X, Y, Z))))
        /\ zero_quotient Y (snd (fst (XYZ_to_xyY_element (X, Y, Z))))
        /\ snd (XYZ_to_xyY_element (X, Y, Z)) = Y
        /\ XYZ_to_xy (mk_ndarray [3] [X; Y; Z])
           = Ok (mk_ndarray [2] [X / (X + Y + Z); Y / (X + Y + Z)]%float))
  /\ (forall X Y Z : float,
        PrimFloat.eqb (X + 15 * Y + 3 * Z) 0 = true ->
        zero_quotient (4 * X) (fst (XYZ_to_uv_element (X, Y, Z)))
        /\ zero_quotient (9 * Y) (snd (XYZ_to_uv_element (X, Y, Z))))
  /\ (forall x y Y : float,
        PrimFloat.eqb y 0 = true ->
        zero_quotient (x * Y) (fst (fst (xyY_to_XYZ_element (x, y, Y))))
        /\ snd (fst (xyY_to_XYZ_element (x, y, Y))) = Y
        /\ zero_quotient ((1 - x - y) * Y) (snd (xyY_to_XYZ_element (x, y, Y)))).
Proof.
  intros Hwf Hs.
  destruct (@array_of_triples _ XYZ s Hwf Hs) as [E Hlen].
  split; [|split; [|split]].
  - repeat split; rewrite E at 1.
    + now apply XYZ_to_xyY_elements.
    + now apply XYZ_to_uv_elements.
    + now apply xyY_to_XYZ_elements.
  - intros X Y Z Hz.
    split; [exact (@float_zero_quotient X _ Hz)|].
    split; [exact (@float_zero_quotient Y _ Hz)|].
    split; reflexivity.
  - intros X Y Z Hz.
    split; [exact (@float_zero_quotient (4 * X) _ Hz)|].
    exact (@float_zero_quotient (9 * Y) _ Hz).
  - intros x y Y Hz.
    split; [exact (@float_zero_quotient (x * Y) _ Hz)|].
    split; [reflexivity|].
    exact (@float_zero_quotient ((1 - x - y) * Y) _ Hz).
Qed.

(** A 2 x 3 array with a zero sum in each row: the first row gives
    infinities, the second NaN. *)
Lemma zero_denominator_propagates_witness :
  let XYZ := mk_ndarray [2; 3] [1; -1; 0; 0; 0; 0]%float in
  well_formed XYZ /\ shape XYZ = [2] ++ [3]
  /\ XYZ_to_xyY XYZ
     = Ok (mk_ndarray [2; 3] [infinity; neg_infinity; (-1)%float; nan; nan; 0%float]).
Proof.
  intros XYZ. split; [reflexivity|]. split; [reflexivity|].
  destruct (@zero_denominator_propagates XYZ [2] eq_refl eq_refl)
    as [[E _] _].
  rewrite E. reflexivity.
Defined.

(* ===================================================================== *)
(** * u'v' back to xy                                                     *)
(* ===================================================================== *)

(** C3 as the specification states it does not hold on binary64: at
    (0, 1, 0) the round trip gives y = 0.99999999999999978, the direct
    projection 1. *)
Lemma uv_round_trip_rounds :
  ~ (forall X Y Z : float,
       PrimFloat.eqb (X + Y + Z) 0 = false ->
       PrimFloat.eqb (X + 15 * Y + 3 * Z) 0 = false ->
       (uv <- XYZ_to_uv (mk_ndarray [3] [X; Y; Z]) ;; Luv_uv_to_xy uv)
       = XYZ_to_xy (mk_ndarray [3] [X; Y; Z])).
Proof.
  intros Hc. specialize (Hc 0%float 1%float 0%float eq_refl eq_refl).
  apply (f_equal (fun r => match r with
                           | Ok a => match data a with
                                     | [_; y] => PrimFloat.eqb y 1
                                     | _ => true
                                     end
                           | Raise _ => true
                           end)) in Hc.
  vm_compute in Hc. discriminate.
Qed.

(** Nor is rounding the whole of it: at (2^1020, 2^1020, 0), inside the
    hypotheses, X + 15 Y + 3 Z overflows to infinity, the round trip gives
    (0, 0) and the direct projection (0.5, 0.5). *)
Lemma uv_round_trip_overflows :
  let X := 0x1p1020%float in
  PrimFloat.eqb (X + X + 0) 0 = false
  /\ PrimFloat.eqb (X + 15 * X + 3 * 0) 0 = false
  /\ (uv <- XYZ_to_uv (mk_ndarray [3] [X; X; 0%float]) ;; Luv_uv_to_xy uv)
     = Ok (mk_ndarray [2] [0; 0]%float)
  /\ XYZ_to_xy (mk_ndarray [3] [X; X; 0%float])
     = Ok (mk_ndarray [2] [0.5; 0.5]%float).
Proof. intros X. repeat split. Qed.

(** The integer literals of the two mappings, as rationals. *)
Lemma Qc_literals :
  (of_int 0 : Qc) = 0%Qc
  /\ (of_int 3 : Qc) = (1 + 1 + 1)%Qc
  /\ (of_int 4 : Qc) = (1 + 1 + 1 + 1)%Qc
  /\ (of_int 6 : Qc) = ((1 + 1) * (1 + 1 + 1))%Qc
  /\ (of_int 9 : Qc) = ((1 + 1 + 1) * (1 + 1 + 1))%Qc
  /\ (of_int 12 : Qc) = ((1 + 1 + 1) * (1 + 1 + 1 + 1))%Qc
  /\ (of_int 15 : Qc) = ((1 + 1 + 1) * (1 + 1 + 1 + 1 + 1))%Qc
  /\ (of_int 16 : Qc) = ((1 + 1 + 1 + 1) * (1 + 1 + 1 + 1))%Qc.
Proof. repeat split; apply Qc_is_canon; reflexivity. Qed.

(** The round trip on one triple of rationals. *)
Lemma uv_round_trip_element (X Y Z : Qc) :
  (X + Y + Z)%num <> ($0)%num ->
  (X + $15 * Y + $3 * Z)%num <> ($0)%num ->
  Luv_uv_to_xy_element (XYZ_to_uv_element (X, Y, Z))
  = XYZ_to_xy_element (X, Y, Z).
Proof.
  intros Hsum Hden.
  cbn [XYZ_to_uv_element Luv_uv_to_xy_element XYZ_to_xy_element].
  destruct Qc_literals as (E0 & E3 & E4 & E6 & E9 & E12 & E15 & E16).
  rewrite ?E0, ?E3, ?E4, ?E6, ?E9, ?E12, ?E15, ?E16 in *.
  cbn [add sub mul div Qc_Number] in *.
  set (three := (1 + 1 + 1)%Qc) in *.
  assert (Hmid : ((1 + 1) * three * ((three + 1) * X)
                  - (three + 1) * (three + 1) * (three * three * Y)
                  + three * (three + 1)
                    * (X + three * (three + 1 + 1) * Y + three * Z))%Qc
                 <> 0%Qc).
  { intros Hz. apply Hsum.
    assert (E : ((X + Y + Z) * ((three + three) * (three + three)))%Qc = 0%Qc)
      by (etransitivity; [|exact Hz]; subst three; ring).
    apply Qcmult_integral in E as [E|E]; [exact E|].
    apply (f_equal this) in E. vm_compute in E. discriminate. }
  subst three.
  f_equal; field; repeat split; assumption.
Qed.

(** ... and on an array of triples of any shape, where [XYZ_to_xy] itself
    is of no use (see C5). *)
Lemma uv_round_trip_elements (s : list nat) (ts : list (Qc * Qc * Qc)) :
  length ts = size_of s -> Forall projects ts ->
  (uv <- XYZ_to_uv (of_triples s ts) ;; Luv_uv_to_xy uv)
  = Ok (of_pairs s (map XYZ_to_xy_element ts)).
Proof.
  intros Hts Hgood.
  rewrite XYZ_to_uv_elements by exact Hts. cbn [bind].
  rewrite Luv_uv_to_xy_elements by (rewrite length_map; exact Hts).
  f_equal. f_equal. rewrite map_map. apply map_ext_in.
  intros [[X Y] Z] Hin. rewrite Forall_forall in Hgood.
  destruct (Hgood _ Hin) as [Hsum Hden]. now apply uv_round_trip_element.
Qed.

(** C3, as it holds of the formulas of the code.  Over exact (rational)
    arithmetic [Luv_uv_to_xy] inverts the u'v' mapping: for every triple of
    rationals with X + Y + Z and X + 15 Y + 3 Z not zero, [Luv_uv_to_xy] of
    [XYZ_to_uv] of the triple is [XYZ_to_xy] of the triple. *)
Theorem Luv_uv_to_xy_inverts_exactly (X Y Z : Qc) :
  (X + Y + Z)%num <> ($0)%num ->
  (X + $15 * Y + $3 * Z)%num <> ($0)%num ->
  (uv <- XYZ_to_uv (mk_ndarray [3] [X; Y; Z]) ;; Luv_uv_to_xy uv)
  = XYZ_to_xy (mk_ndarray [3] [X; Y; Z]).
Proof.
  intros Hsum Hden.
  rewrite XYZ_to_xy_triple.
  change (mk_ndarray [3] [X; Y; Z]) with (of_triples [] [(X, Y, Z)]).
  rewrite uv_round_trip_elements.
  - reflexivity.
  - reflexivity.
  - constructor; [split; assumption | constructor].
Qed.

(** The round trip at the rational triple (1, 1, 1). *)
Lemma Luv_uv_to_xy_inverts_exactly_witness :
  let X : Qc := Q2Qc 1 in
  (X + X + X)%num <> ($0)%num
  /\ (X + $15 * X + $3 * X)%num <> ($0)%num
  /\ (uv <- XYZ_to_uv (mk_ndarray [3] [X; X; X]) ;; Luv_uv_to_xy uv)
     = XYZ_to_xy (mk_ndarray [3] [X; X; X]).
Proof.
  intros X.
  assert (Hsum : (X + X + X)%num <> ($0)%num).
  { intros E. apply (f_equal this) in E. vm_compute in E. discriminate. }
  assert (Hden : (X + $15 * X + $3 * X)%num <> ($0)%num).
  { intros E. apply (f_equal this) in E. vm_compute in E. discriminate. }
  split; [exact Hsum|]. split; [exact Hden|].
  exact (@Luv_uv_to_xy_inverts_exactly X X X Hsum Hden).
Defined.

(* ===================================================================== *)
(** * The Spectrum pairing                                                *)
(* ===================================================================== *)

(** C6 as the specification states it does not hold: construction checks
    nothing, and three wavelengths with two values make a Spectrum. *)
Lemma Spectrum_accepts_unequal_lengths :
  ~ (forall w v : ndarray float,
       well_formed w -> well_formed v -> paired (Spectrum.__init__ w v)).
Proof.
  intros Hc.
  destruct (Hc (mk_ndarray [3] [400; 500; 600]%float)
               (mk_ndarray [2] [1; 2]%float) eq_refl eq_refl) as [E _].
  discriminate E.
Qed.

Lemma ufunc2_scalar_r {A B C : Type} (f : A -> B -> C) (a : ndarray A) (c : B) :
  well_formed a ->
  ufunc2 f a (scalar c)
  = Ok (mk_ndarray (shape a) (map (fun v => f v c) (data a))).
Proof.
  intros Hwf. destruct a as [s d]. cbn [shape data] in *.
  rewrite <- (map_id d) at 1.
  exact (ufunc2_pw_scalar s d Hwf f (fun v => v) c).
Qed.

(** C6, as it holds of the code.  Construction stores the two arrays it is
    given, checked or not: a Spectrum built from arrays of one shape pairs
    them 1:1.  [normalize_spectrum], the one operation that returns a
    Spectrum, keeps the pairing: from a paired Spectrum it returns, if it
    returns, a paired Spectrum with the same wavelengths. *)
Theorem Spectrum_pairing_preserved {W A : Type} `{Number W} `{Number A}
  (w : ndarray W) (v : ndarray A) (sp sp' : Spectrum.t W A) :
  (Spectrum.wavelengths (Spectrum.__init__ w v) = w
   /\ Spectrum.values (Spectrum.__init__ w v) = v)
  /\ (paired sp -> normalize_spectrum sp = Ok sp' ->
      paired sp' /\ Spectrum.wavelengths sp' = Spectrum.wavelengths sp).
Proof.
  split; [split; reflexivity|].
  intros (Hshape & Hw & Hv) E. unfold normalize_spectrum in E.
  destruct (np_searchsorted _ _) as [low|]; [|discriminate].
  destruct (np_searchsorted _ _) as [high|]; [|discriminate].
  cbn [bind] in E.
  destruct (getslice _ low high) as [visible|]; [|discriminate].
  cbn [bind] in E.
  destruct (np_max visible) as [peak|]; [|discriminate].
  cbn [bind] in E. unfold arr, py, lift2 in E. cbn [bind] in E.
  rewrite (ufunc2_scalar_r _ _ Hv) in E. cbn [bind] in E.
  injection E as <-. unfold paired. cbn.
  repeat split; trivial.
  unfold well_formed. cbn. now rewrite length_map.
Qed.

(** A paired Spectrum stays paired through [normalize_spectrum]. *)
Lemma Spectrum_pairing_preserved_witness :
  let w := mk_ndarray [3] [380; 550; 720]%float in
  let v := mk_ndarray [3] [1; 4; 2]%float in
  let sp' := Spectrum.__init__ w (mk_ndarray [3] [0.25; 1; 0.5]%float) in
  paired (Spectrum.__init__ w v)
  /\ normalize_spectrum (Spectrum.__init__ w v) = Ok sp'
  /\ paired sp'.
Proof.
  intros w v sp'.
  assert (Hp : paired (Spectrum.__init__ w v)) by (repeat split).
  assert (E : normalize_spectrum (Spectrum.__init__ w v) = Ok sp')
    by reflexivity.
  split; [exact Hp|]. split; [exact E|].
  exact (proj1 (proj2 (Spectrum_pairing_preserved w v
                         (Spectrum.__init__ w v) sp') Hp E)).
Defined.

(* ===================================================================== *)
(** * Normalising a spectrum                                              *)
(* ===================================================================== *)

(** C7 read with both ends of the band included does not hold: with
    wavelengths 400 and 700 and values 1 and 2, the maximum over 400..700
    is 2, but the values are divided by 1, the value at 400. *)
Lemma closed_band_peak_differs :
  ~ (forall (ws vs : list float) (peak : float),
       length ws = length vs ->
       StronglySorted (fun x y => leb x y = true) ws ->
       np_max (mk_ndarray [length (band_values in_closed_visible_band ws vs)]
                          (band_values in_closed_visible_band ws vs))
       = Ok peak ->
       normalize_spectrum
         (Spectrum.__init__ (mk_ndarray [length ws] ws)
                            (mk_ndarray [length ws] vs))
       = Ok (Spectrum.__init__
               (mk_ndarray [length ws] ws)
               (mk_ndarray [length ws] (map (fun v => div v peak) vs)))).
Proof.
  intros Hc.
  assert (Hs : StronglySorted (fun x y : float => leb x y = true)
                              [400; 700]%float).
  { repeat constructor. }
  specialize (Hc [400; 700]%float [1; 2]%float 2%float eq_refl Hs eq_refl).
  apply (f_equal (fun r => match r with
                           | Ok sp => match data (Spectrum.values sp) with
                                      | x :: _ => PrimFloat.eqb x 1
                                      | [] => false
                                      end
                           | Raise _ => false
                           end)) in Hc.
  vm_compute in Hc. discriminate.
Qed.

(** C7, as it holds of the code.  For a Spectrum of paired 1-d arrays whose
    wavelengths are sorted ascending and some of which lie in the band
    400 <= w < 700, [normalize_spectrum] returns a new Spectrum with the
    same wavelengths and every value divided by the peak: the maximum
    reduction over the values at the wavelengths of that band (700 nm
    itself is outside it).  When none of those values is NaN the peak is
    one of them and none exceeds it; when one of them is NaN the peak is
    NaN.  The argument is a value of the embedding: nothing of it
    changes. *)
Theorem normalize_spectrum_visible_peak {W A : Type} `{Number W} `{Number A}
  (sp : Spectrum.t W A) (n : nat) :
  OrderLaws W ->
  isnan (of_int 400 : W) = false -> isnan (of_int 700 : W) = false ->
  paired sp -> shape (Spectrum.wavelengths sp) = [n] ->
  StronglySorted (fun x y => leb x y = true) (data (Spectrum.wavelengths sp)) ->
  band_values in_visible_band (data (Spectrum.wavelengths sp))
              (data (Spectrum.values sp)) <> [] ->
  exists peak : A,
    np_max (mk_ndarray
              [length (band_values in_visible_band
                                   (data (Spectrum.wavelengths sp))
                                   (data (Spectrum.values sp)))]
              (band_values in_visible_band (data (Spectrum.wavelengths sp))
                           (data (Spectrum.values sp))))
    = Ok peak
    /\ normalize_spectrum sp
       = Ok (Spectrum.__init__
               (Spectrum.wavelengths sp)
               (mk_ndarray [n] (map (fun v => div v peak)
                                    (data (Spectrum.values sp)))))
    /\ (OrderLaws A ->
        (forall v, In v (band_values in_visible_band
                                     (data (Spectrum.wavelengths sp))
                                     (data (Spectrum.values sp))) ->
                   isnan v = false) ->
        In peak (band_values in_visible_band (data (Spectrum.wavelengths sp))
                             (data (Spectrum.values sp)))
        /\ forall v, In v (band_values in_visible_band
                                       (data (Spectrum.wavelengths sp))
                                       (data (Spectrum.values sp))) ->
                     leb v peak = true)
    /\ (OrderLaws A ->
        (exists v, In v (band_values in_visible_band
                                     (data (Spectrum.wavelengths sp))
                                     (data (Spectrum.values sp)))
                   /\ isnan v = true) ->
        isnan peak = true).
Proof.
  intros laws Hlow Hhigh (Hshape & Hw & Hv) Hn Hs Hband.
  destruct sp as [[ws_shape ws] [vs_shape vs] meta].
  cbn [Spectrum.wavelengths Spectrum.values shape data] in *.
  unfold well_formed in Hw, Hv. cbn [shape data] in Hw, Hv.
  subst ws_shape vs_shape. cbn [size_of fold_right] in Hw, Hv.
  assert (Hl : length ws = length vs) by lia.
  assert (En : n = length ws) by lia. subst n.
  destruct (band_values in_visible_band ws vs) as [|v0 rest] eqn:Eband;
    [contradiction|].
  exists (fold_left scalar_max rest v0).
  split; [reflexivity|]. split; [|split].
  - apply (normalize_spectrum_sorted laws Hlow Hhigh vs meta Hl Hs).
    rewrite Eband. reflexivity.
  - intros lawsA Hnum.
    apply (np_max_is_maximum lawsA (mk_ndarray [length (v0 :: rest)] (v0 :: rest)));
      [exact Hnum | reflexivity].
  - intros lawsA Hnan. now apply (fold_scalar_max_nan lawsA).
Qed.

(** Five samples from 380 nm to 720 nm: the band holds the values at 400
    and 550, the peak is 4, and the value at 700 is not part of it. *)
Lemma normalize_spectrum_visible_peak_witness :
  let sp : Spectrum.t float float :=
    Spectrum.__init__ (mk_ndarray [5] [380; 400; 550; 700; 720]%float)
                      (mk_ndarray [5] [1; 2; 4; 8; 16]%float) in
  OrderLaws float
  /\ paired sp
  /\ StronglySorted (fun x y : float => leb x y = true)
                    (data (Spectrum.wavelengths sp))
  /\ band_values in_visible_band (data (Spectrum.wavelengths sp))
                 (data (Spectrum.values sp)) = [2; 4]%float
  /\ exists peak : float,
       normalize_spectrum sp
       = Ok (Spectrum.__init__
               (Spectrum.wavelengths sp)
               (mk_ndarray [5] (map (fun v => div v peak)
                                    (data (Spectrum.values sp))))).
Proof.
  intros sp.
  assert (Hp : paired sp) by (repeat split).
  assert (Hs : StronglySorted (fun x y : float => leb x y = true)
                              (data (Spectrum.wavelengths sp)))
    by (repeat constructor).
  assert (Hb : band_values in_visible_band (data (Spectrum.wavelengths sp))
                           (data (Spectrum.values sp)) <> [])
    by (vm_compute; discriminate).
  split; [exact float_OrderLaws|]. split; [exact Hp|]. split; [exact Hs|].
  split; [reflexivity|].
  destruct (@normalize_spectrum_visible_peak float float _ _ sp 5
              float_OrderLaws eq_refl eq_refl Hp eq_refl Hs Hb)
    as (peak & _ & E & _).
  exists peak. exact E.
Defined.

(* ===================================================================== *)
(** * The conversions are vectorised                                      *)
(* ===================================================================== *)

Lemma np_ones_pw {A T : Type} `{Number A} (s : list nat) (ts : list T) :
  length ts = size_of s ->
  np_ones s = pointwise s ts (fun _ => of_int 1).
Proof.
  intros Hts. unfold np_ones, pointwise. rewrite <- Hts. f_equal.
  clear Hts. induction ts as [|t ts IH]; [reflexivity|].
  cbn [length repeat map]. now rewrite IH.
Qed.

Section MoreElementWise.
Context {A : Type} `{Number A}.
Variable s : list nat.

Lemma xy_to_xyY_elements (Y : A) (ts : list (A * A)) :
  length ts = size_of s ->
  xy_to_xyY (of_pairs s ts) (scalar Y)
  = Ok (of_triples s (map (xy_to_xyY_element Y) ts)).
Proof.
  intros Hts. unfold xy_to_xyY, of_pairs, of_triples.
  cbn [shape of_rows]. rewrite tuple_last_app. cbn [bind Nat.eqb].
  change (mk_ndarray (s ++ [2]) (flat_map row2 ts)) with (of_rows s 2 row2 ts).
  rewrite !(getitem_last_of_rows _ _ Hts _ (of_int 0) (@row2_length A)) by lia.
  cbn [bind shape pointwise].
  rewrite (np_ones_pw _ _ Hts).
  eval_rows Hts (@row2_length A) (of_int 0).
  f_equal. apply of_rows_ext. intros [x y]. reflexivity.
Qed.

Lemma xy_to_XYZ_elements (ts : list (A * A)) :
  length ts = size_of s ->
  xy_to_XYZ (of_pairs s ts) = Ok (of_triples s (map xy_to_XYZ_element ts)).
Proof.
  intros Hts. unfold xy_to_XYZ.
  rewrite xy_to_xyY_elements by exact Hts. cbn [bind].
  rewrite xyY_to_XYZ_elements by (rewrite length_map; exact Hts).
  now rewrite map_map.
Qed.

Lemma Luv_to_uv_elements `{Power A} (ts : list (A * A * A)) :
  length ts = size_of s ->
  Luv_to_uv (of_triples s ts) = Ok (of_pairs s (map Luv_to_uv_element ts)).
Proof.
  intros Hts. unfold Luv_to_uv.
  rewrite Luv_to_XYZ_elements by exact Hts. cbn [bind].
  rewrite XYZ_to_uv_elements by (rewrite length_map; exact Hts).
  now rewrite map_map.
Qed.
End MoreElementWise.

(** X1.  The conversions that read triples are vectorised over the leading
    axes: on every well-formed array whose trailing axis has length 3,
    whatever the leading shape, [XYZ_to_xyY], [XYZ_to_uv], [xyY_to_XYZ] and
    [Luv_to_uv] return the array of the same leading shape that holds, for
    each triple of the input in order, what the expressions of the function
    give for that triple. *)
Theorem triple_conversions_vectorised {A : Type} `{Number A} `{Power A}
  (a : ndarray A) (s : list nat) :
  well_formed a -> shape a = s ++ [3] ->
  XYZ_to_xyY a = Ok (of_triples s (map XYZ_to_xyY_element (to_triples (data a))))
  /\ XYZ_to_uv a = Ok (of_pairs s (map XYZ_to_uv_element (to_triples (data a))))
  /\ xyY_to_XYZ a = Ok (of_triples s (map xyY_to_XYZ_element (to_triples (data a))))
  /\ Luv_to_uv a = Ok (of_pairs s (map Luv_to_uv_element (to_triples (data a)))).
Proof.
  intros Hwf Hshape.
  destruct (@array_of_triples _ a s Hwf Hshape) as [Ea Hts].
  remember (to_triples (data a)) as ts eqn:Ets. clear Ets. subst a.
  rewrite XYZ_to_xyY_elements, XYZ_to_uv_elements, xyY_to_XYZ_elements,
    Luv_to_uv_elements by exact Hts.
  repeat split.
Qed.

(** A 2 x 1 grid of XYZ triples. *)
Lemma triple_conversions_vectorised_witness :
  let a : ndarray Qc :=
    mk_ndarray [2; 1; 3] (map (fun z => Q2Qc (inject_Z z)) [1; 2; 3; 4; 5; 6]%Z) in
  well_formed a /\ shape a = [2; 1] ++ [3]
  /\ XYZ_to_uv a
     = Ok (of_pairs [2; 1] (map XYZ_to_uv_element (to_triples (data a)))).
Proof.
  intros a.
  assert (Hwf : well_formed a) by reflexivity.
  assert (Hs : shape a = [2; 1] ++ [3]) by reflexivity.
  split; [exact Hwf|]. split; [exact Hs|].
  exact (proj1 (proj2 (@triple_conversions_vectorised Qc _ _ a [2; 1] Hwf Hs))).
Defined.

(** X2.  So are the conversions that read pairs: on every well-formed array
    whose trailing axis has length 2, [Luv_uv_to_xy] returns the array of
    its pairs mapped one by one, [xy_to_xyY] with a scalar [Y] the array of
    the triples (x, y, 1 * Y), and [xy_to_XYZ] the array of the triples
    that [xyY_to_XYZ] makes of (x, y, 1 * 1): the default luminance is 1. *)
Theorem pair_conversions_vectorised {A : Type} `{Number A}
  (a : ndarray A) (s : list nat) (Y : A) :
  well_formed a -> shape a = s ++ [2] ->
  Luv_uv_to_xy a = Ok (of_pairs s (map Luv_uv_to_xy_element (to_pairs (data a))))
  /\ xy_to_xyY a (scalar Y)
     = Ok (of_triples s (map (fun t => (fst t, snd t, mul (of_int 1) Y))
                             (to_pairs (data a))))
  /\ xy_to_XYZ a
     = Ok (of_triples s
             (map (fun t => xyY_to_XYZ_element
                              (fst t, snd t, mul (of_int 1) (of_int 1)))
                  (to_pairs (data a)))).
Proof.
  intros Hwf Hshape.
  destruct (@array_of_pairs _ a s Hwf Hshape) as [Ea Hts].
  remember (to_pairs (data a)) as ts eqn:Ets. clear Ets. subst a.
  rewrite Luv_uv_to_xy_elements, xy_to_xyY_elements, xy_to_XYZ_elements
    by exact Hts.
  repeat split; do 2 f_equal; apply map_ext; intros [x y]; reflexivity.
Qed.

(** Two chromaticities and the luminance 7. *)
Lemma pair_conversions_vectorised_witness :
  let a := mk_ndarray [2; 2] [0.25; 0.5; 0.125; 0.75]%float in
  well_formed a /\ shape a = [2] ++ [2]
  /\ xy_to_xyY a (scalar 7%float)
     = Ok (mk_ndarray [2; 3] [0.25; 0.5; 7; 0.125; 0.75; 7]%float).
Proof.
  intros a.
  assert (Hwf : well_formed a) by reflexivity.
  assert (Hs : shape a = [2] ++ [2]) by reflexivity.
  split; [exact Hwf|]. split; [exact Hs|].
  exact (proj1 (proj2 (@pair_conversions_vectorised float _ a [2] 7%float Hwf Hs))).
Defined.

(* ===================================================================== *)
(** * Round trips in exact arithmetic                                     *)
(* ===================================================================== *)

Lemma Qc_one : (of_int 1 : Qc) = 1%Qc.
Proof. apply Qc_is_canon. reflexivity. Qed.

Lemma Qc_nonzero (a : Qc) : (a <> of_int 0) <-> a <> 0%Qc.
Proof. destruct Qc_literals as (E0 & _). rewrite E0. tauto. Qed.

(** [xyY_to_XYZ] undoes [XYZ_to_xyY] on one triple. *)
Lemma xyY_XYZ_round_trip_element (X Y Z : Qc) :
  (X + Y + Z)%num <> ($0)%num -> Y <> ($0)%num ->
  xyY_to_XYZ_element (XYZ_to_xyY_element (X, Y, Z)) = (X, Y, Z).
Proof.
  intros Hsum HY.
  cbn [XYZ_to_xyY_element xyY_to_XYZ_element].
  destruct Qc_literals as (E0 & _).
  rewrite ?E0, ?Qc_one in *.
  cbn [add sub mul div Qc_Number] in *.
  repeat f_equal; field; repeat split; assumption.
Qed.

(** [XYZ_to_xyY] undoes [xyY_to_XYZ] on one triple. *)
Lemma XYZ_xyY_round_trip_element (x y Y : Qc) :
  y <> ($0)%num -> Y <> ($0)%num ->
  XYZ_to_xyY_element (xyY_to_XYZ_element (x, y, Y)) = (x, y, Y).
Proof.
  intros Hy HY.
  cbn [XYZ_to_xyY_element xyY_to_XYZ_element].
  destruct Qc_literals as (E0 & _).
  rewrite ?E0, ?Qc_one in *.
  cbn [add sub mul div Qc_Number] in *.
  assert (Hsum : (x * Y + Y * y + (1 - x - y) * Y)%Qc <> 0%Qc).
  { intros Hz. apply HY. etransitivity; [|exact Hz]. ring. }
  repeat f_equal; field; repeat split; assumption.
Qed.

(** X3.  In exact (rational) arithmetic [xyY_to_XYZ] and [XYZ_to_xyY] are
    inverse to each other on arrays of triples of any shape: XYZ -> xyY ->
    XYZ gives the input back where X + Y + Z and Y are not zero, and
    xyY -> XYZ -> xyY gives it back where y and Y are not zero. *)
Theorem xyY_XYZ_inverse (s : list nat) (ts : list (Qc * Qc * Qc)) :
  length ts = size_of s ->
  (Forall (fun t => let '(X, Y, Z) := t in
                    (X + Y + Z)%num <> ($0)%num /\ Y <> ($0)%num) ts ->
   (xyY <- XYZ_to_xyY (of_triples s ts) ;; xyY_to_XYZ xyY)
   = Ok (of_triples s ts))
  /\ (Forall (fun t => let '(x, y, Y) := t in
                       y <> ($0)%num /\ Y <> ($0)%num) ts ->
      (XYZ <- xyY_to_XYZ (of_triples s ts) ;; XYZ_to_xyY XYZ)
      = Ok (of_triples s ts)).
Proof.
  intros Hts. split; intros Hgood.
  - rewrite XYZ_to_xyY_elements by exact Hts. cbn [bind].
    rewrite xyY_to_XYZ_elements by (rewrite length_map; exact Hts).
    do 2 f_equal. rewrite map_map. rewrite <- (map_id ts) at 2.
    apply map_ext_in. intros [[X Y] Z] Hin. rewrite Forall_forall in Hgood.
    destruct (Hgood _ Hin) as [Hsum HY]. now apply xyY_XYZ_round_trip_element.
  - rewrite xyY_to_XYZ_elements by exact Hts. cbn [bind].
    rewrite XYZ_to_xyY_elements by (rewrite length_map; exact Hts).
    do 2 f_equal. rewrite map_map. rewrite <- (map_id ts) at 2.
    apply map_ext_in. intros [[x y] Y] Hin. rewrite Forall_forall in Hgood.
    destruct (Hgood _ Hin) as [Hy HY]. now apply XYZ_xyY_round_trip_element.
Qed.

(** The two round trips on the row of triples (1, 2, 3), (1/2, 1/3, 5). *)
Lemma xyY_XYZ_inverse_witness :
  let ts : list (Qc * Qc * Qc) :=
    [(Q2Qc 1, Q2Qc 2, Q2Qc 3); (Q2Qc (1 # 2), Q2Qc (1 # 3), Q2Qc 5)] in
  (xyY <- XYZ_to_xyY (of_triples [2] ts) ;; xyY_to_XYZ xyY) = Ok (of_triples [2] ts)
  /\ (XYZ <- xyY_to_XYZ (of_triples [2] ts) ;; XYZ_to_xyY XYZ) = Ok (of_triples [2] ts).
Proof.
  intros ts.
  assert (Hnz : forall a : Qc, Qeq_bool (this a) 0 = false -> a <> ($0)%num).
  { intros a Ha E. rewrite E in Ha. vm_compute in Ha. discriminate. }
  destruct (@xyY_XYZ_inverse [2] ts eq_refl) as [H1 H2].
  split.
  - apply H1. repeat constructor; apply Hnz; reflexivity.
  - apply H2. repeat constructor; apply Hnz; reflexivity.
Defined.

(** A rational constant is not zero. *)
Ltac Qc_constant_nonzero :=
  let Hz := fresh "Hz" in
  intros Hz; apply (f_equal this) in Hz; vm_compute in Hz; discriminate Hz.

(** Closes the side conditions of [field]: each is a hypothesis or a
    constant. *)
Ltac Qc_denominators :=
  repeat split; first [ assumption | Qc_constant_nonzero ].

(** u'v' to xy to XYZ and back to u'v', on one pair. *)
Lemma uv_xy_XYZ_round_trip_element (u v : Qc) :
  v <> ($0)%num -> ($6 * u - $16 * v + $12)%num <> ($0)%num ->
  XYZ_to_uv_element (xy_to_XYZ_element (Luv_uv_to_xy_element (u, v))) = (u, v).
Proof.
  intros Hv Hden.
  cbn [XYZ_to_uv_element xy_to_XYZ_element xy_to_xyY_element xyY_to_XYZ_element
       Luv_uv_to_xy_element].
  destruct Qc_literals as (E0 & E3 & E4 & E6 & E9 & E12 & E15 & E16).
  rewrite ?E0, ?E3, ?E4, ?E6, ?E9, ?E12, ?E15, ?E16, ?Qc_one in *.
  cbn [add sub mul div Qc_Number] in *.
  set (D := ((1 + 1) * (1 + 1 + 1) * u - (1 + 1 + 1 + 1) * (1 + 1 + 1 + 1) * v
             + (1 + 1 + 1) * (1 + 1 + 1 + 1))%Qc) in *.
  set (x := ((1 + 1 + 1) * (1 + 1 + 1) * u / D)%Qc).
  set (y := ((1 + 1 + 1 + 1) * v / D)%Qc).
  assert (EX : (x * (1 * 1) / y)%Qc
               = ((1 + 1 + 1) * (1 + 1 + 1) * u / ((1 + 1 + 1 + 1) * v))%Qc).
  { subst x y. field. Qc_denominators. }
  assert (EZ : ((1 - x - y) * (1 * 1) / y)%Qc
               = ((D - (1 + 1 + 1) * (1 + 1 + 1) * u - (1 + 1 + 1 + 1) * v)
                  / ((1 + 1 + 1 + 1) * v))%Qc).
  { subst x y. field. Qc_denominators. }
  rewrite EX, EZ.
  assert (ES : ((1 + 1 + 1) * (1 + 1 + 1) * u / ((1 + 1 + 1 + 1) * v)
                + (1 + 1 + 1) * (1 + 1 + 1 + 1 + 1) * (1 * 1)
                + (1 + 1 + 1)
                  * ((D - (1 + 1 + 1) * (1 + 1 + 1) * u - (1 + 1 + 1 + 1) * v)
                     / ((1 + 1 + 1 + 1) * v)))%Qc
               = ((1 + 1 + 1) * (1 + 1 + 1) / v)%Qc).
  { subst D. field. Qc_denominators. }
  rewrite ES.
  f_equal; field; Qc_denominators.
Qed.

(** The integer literals of [Luv_to_XYZ], as rationals. *)
Lemma Qc_literals_Luv :
  (of_int 5 : Qc) = (1 + 1 + 1 + 1 + 1)%Qc
  /\ (of_int 13 : Qc) = (1 + (1 + 1 + 1) * (1 + 1 + 1 + 1))%Qc
  /\ (of_int 39 : Qc) = ((1 + 1 + 1) * (1 + (1 + 1 + 1) * (1 + 1 + 1 + 1)))%Qc
  /\ (of_int 52 : Qc) = ((1 + 1 + 1 + 1) * (1 + (1 + 1 + 1) * (1 + 1 + 1 + 1)))%Qc
  /\ (of_int (-1) : Qc) = (- (1))%Qc
  /\ (of_int (-5) : Qc) = (- (1 + 1 + 1 + 1 + 1))%Qc.
Proof. repeat split; apply Qc_is_canon; reflexivity. Qed.

(** The algebra of [Luv_to_XYZ] followed by [XYZ_to_uv], one step at a
    time; [U] and [V] are the two denominators u + 13 L u0, v + 13 L v0. *)
Lemma Luv_slope (L U : Qc) :
  L <> 0%Qc -> U <> 0%Qc ->
  (($1 / $3 * ($52 * L / U - $1)) - $(-1) / $3)%num
  = (($52 * L) / ($3 * U))%num.
Proof.
  intros HL HU.
  destruct Qc_literals as (E0 & E3 & _).
  destruct Qc_literals_Luv as (E5 & E13 & E39 & E52 & En1 & En5).
  rewrite ?E3, ?E52, ?En1, ?Qc_one.
  cbn [add sub mul div Qc_Number].
  field. Qc_denominators.
Qed.

Lemma Luv_rise (L V Y : Qc) :
  V <> 0%Qc ->
  (Y * ($39 * L / V - $5) - $(-5) * Y)%num = (($39 * L * Y) / V)%num.
Proof.
  intros HV.
  destruct Qc_literals_Luv as (E5 & E13 & E39 & E52 & En1 & En5).
  rewrite ?E5, ?E39, ?En5.
  cbn [add sub mul div Qc_Number].
  field. assumption.
Qed.

Lemma Luv_X (L U V Y : Qc) :
  L <> 0%Qc -> U <> 0%Qc -> V <> 0%Qc ->
  ((($39 * L * Y) / V) / (($52 * L) / ($3 * U)))%num
  = (($9 * Y * U) / ($4 * V))%num.
Proof.
  intros HL HU HV.
  destruct Qc_literals as (E0 & E3 & E4 & E6 & E9 & _).
  destruct Qc_literals_Luv as (E5 & E13 & E39 & E52 & En1 & En5).
  rewrite ?E3, ?E4, ?E9, ?E39, ?E52.
  cbn [add sub mul div Qc_Number].
  field. Qc_denominators.
Qed.

Lemma Luv_uv_of_X (L U V Y : Qc) :
  L <> 0%Qc -> Y <> 0%Qc -> U <> 0%Qc -> V <> 0%Qc ->
  let X := (($9 * Y * U) / ($4 * V))%num in
  let a := ($1 / $3 * ($52 * L / U - $1))%num in
  let Z := (X * a + $(-5) * Y)%num in
  XYZ_to_uv_element (X, Y, Z) = ((U / ($13 * L))%num, (V / ($13 * L))%num).
Proof.
  intros HL HY HU HV. cbv zeta. cbn [XYZ_to_uv_element].
  destruct Qc_literals as (E0 & E3 & E4 & E6 & E9 & E12 & E15 & E16).
  destruct Qc_literals_Luv as (E5 & E13 & E39 & E52 & En1 & En5).
  rewrite ?E3, ?E4, ?E9, ?E13, ?E15, ?E52, ?En5, ?Qc_one.
  cbn [add sub mul div Qc_Number].
  assert (Hden : ((1 + 1 + 1) * (1 + 1 + 1) * Y * U
                  / ((1 + 1 + 1 + 1) * V)
                  + (1 + 1 + 1) * (1 + 1 + 1 + 1 + 1) * Y
                  + (1 + 1 + 1)
                    * ((1 + 1 + 1) * (1 + 1 + 1) * Y * U
                       / ((1 + 1 + 1 + 1) * V)
                       * (1 / (1 + 1 + 1)
                          * ((1 + 1 + 1 + 1) * (1 + (1 + 1 + 1) * (1 + 1 + 1 + 1))
                             * L / U - 1))
                       + - (1 + 1 + 1 + 1 + 1) * Y))%Qc
                 = ((1 + 1 + 1) * (1 + 1 + 1)
                    * (1 + (1 + 1 + 1) * (1 + 1 + 1 + 1)) * Y * L / V)%Qc).
  { field. Qc_denominators. }
  rewrite Hden.
  f_equal; field; Qc_denominators.
Qed.

(** A nonzero lightness gives a nonzero luminance, on either branch. *)
Lemma Luv_Y_nonzero (L : Qc) : L <> 0%Qc -> Luv_Y L <> 0%Qc.
Proof.
  intros HL. unfold Luv_Y.
  assert (EK : (CIE_E * CIE_K)%num = Q2Qc 8) by (apply Qc_is_canon; reflexivity).
  rewrite EK.
  destruct (ltb (Q2Qc 8) L) eqn:Elt.
  - assert (Hbase : ((L + $16) / $116)%num <> 0%Qc).
    { cbn [add div Qc_Number]. unfold Qcdiv. intros Hz.
      apply Qcmult_integral in Hz as [Hz|Hz].
      - assert (EL : L = (0 - of_int 16)%Qc).
        { rewrite <- Hz. generalize (of_int 16 : Qc). intros c. ring. }
        subst L. vm_compute in Elt. discriminate.
      - apply (f_equal this) in Hz. vm_compute in Hz. discriminate. }
    cbn [pow Qc_Power]. change (Z.to_nat 3) with 3. cbn [Qcpower].
    intros Hz.
    apply Qcmult_integral in Hz as [Hz|Hz]; [now apply Hbase|].
    apply Qcmult_integral in Hz as [Hz|Hz]; [now apply Hbase|].
    apply Qcmult_integral in Hz as [Hz|Hz]; [now apply Hbase|].
    discriminate Hz.
  - cbn [div Qc_Number]. unfold Qcdiv. intros Hz.
    apply Qcmult_integral in Hz as [Hz|Hz]; [now apply HL|].
    apply (f_equal this) in Hz. vm_compute in Hz. discriminate.
Qed.

(** [Luv_to_uv] on one triple of rationals. *)
Lemma Luv_to_uv_element_closed (L u v : Qc) :
  L <> ($0)%num ->
  (u + $13 * L * u_r)%num <> ($0)%num ->
  (v + $13 * L * v_r)%num <> ($0)%num ->
  Luv_to_uv_element (L, u, v)
  = ((u / ($13 * L) + u_r)%num, (v / ($13 * L) + v_r)%num).
Proof.
  rewrite !Qc_nonzero. intros HL HU HV.
  pose proof (Luv_Y_nonzero HL) as HY.
  unfold Luv_to_uv_element, Luv_to_XYZ_element. cbv zeta.
  fold (@u_r Qc _). fold (@v_r Qc _).
  revert HU HV HY.
  generalize (@u_r Qc _) (@v_r Qc _) (Luv_Y L). intros u0 v0 Y HU HV HY.
  rewrite (Luv_slope HL HU), (Luv_rise L Y HV), (Luv_X Y HL HU HV).
  rewrite (Luv_uv_of_X HL HY HU HV).
  destruct Qc_literals_Luv as (E5 & E13 & _).
  rewrite ?E13. cbn [add sub mul div Qc_Number].
  f_equal; field; Qc_denominators.
Qed.

(** X4.  In exact (rational) arithmetic, taking u'v' chromaticities to xy
    with [Luv_uv_to_xy], on to XYZ with [xy_to_XYZ] (luminance 1) and back
    with [XYZ_to_uv] returns the chromaticities one started from, on arrays
    of pairs of any shape, wherever v' and 6 u' - 16 v' + 12 are not
    zero. *)
Theorem uv_xy_XYZ_round_trip (s : list nat) (ts : list (Qc * Qc)) :
  length ts = size_of s ->
  Forall (fun t => let '(u, v) := t in
                   v <> ($0)%num /\ ($6 * u - $16 * v + $12)%num <> ($0)%num) ts ->
  (xy <- Luv_uv_to_xy (of_pairs s ts) ;; XYZ <- xy_to_XYZ xy ;; XYZ_to_uv XYZ)
  = Ok (of_pairs s ts).
Proof.
  intros Hts Hgood.
  rewrite Luv_uv_to_xy_elements by exact Hts. cbn [bind].
  rewrite xy_to_XYZ_elements by (rewrite length_map; exact Hts). cbn [bind].
  rewrite XYZ_to_uv_elements by (rewrite !length_map; exact Hts).
  do 2 f_equal. rewrite !map_map. rewrite <- (map_id ts) at 2.
  apply map_ext_in. intros [u v] Hin. rewrite Forall_forall in Hgood.
  destruct (Hgood _ Hin) as [Hv Hden]. now apply uv_xy_XYZ_round_trip_element.
Qed.

(** The round trip at (1/5, 2/5) and (1/4, 1/2). *)
Lemma uv_xy_XYZ_round_trip_witness :
  let ts : list (Qc * Qc) :=
    [(Q2Qc (1 # 5), Q2Qc (2 # 5)); (Q2Qc (1 # 4), Q2Qc (1 # 2))] in
  (xy <- Luv_uv_to_xy (of_pairs [2] ts) ;; XYZ <- xy_to_XYZ xy ;; XYZ_to_uv XYZ)
  = Ok (of_pairs [2] ts).
Proof.
  intros ts.
  assert (Hnz : forall a : Qc, Qeq_bool (this a) 0 = false -> a <> ($0)%num).
  { intros a Ha E. rewrite E in Ha. vm_compute in Ha. discriminate. }
  apply (@uv_xy_XYZ_round_trip [2] ts eq_refl).
  repeat constructor; apply Hnz; reflexivity.
Defined.

(** X5.  In exact (rational) arithmetic [Luv_to_uv] computes the CIE 1976
    formula u' = u / (13 L) + u_r, v' = v / (13 L) + v_r, with u_r, v_r the
    chromaticity of the D50 white, on arrays of triples of any shape: the
    luminance that [Luv_to_XYZ] derives from L on either branch of its
    piecewise rule cancels.  It holds wherever L, u + 13 L u_r and
    v + 13 L v_r are not zero. *)
Theorem Luv_to_uv_formula (s : list nat) (ts : list (Qc * Qc * Qc)) :
  length ts = size_of s ->
  Forall (fun t => let '(L, u, v) := t in
                   L <> ($0)%num
                   /\ (u + $13 * L * u_r)%num <> ($0)%num
                   /\ (v + $13 * L * v_r)%num <> ($0)%num) ts ->
  Luv_to_uv (of_triples s ts)
  = Ok (of_pairs s (map (fun t => let '(L, u, v) := t in
                                  ((u / ($13 * L) + u_r)%num,
                                   (v / ($13 * L) + v_r)%num)) ts)).
Proof.
  intros Hts Hgood.
  rewrite Luv_to_uv_elements by exact Hts.
  do 2 f_equal. apply map_ext_in. intros [[L u] v] Hin.
  rewrite Forall_forall in Hgood.
  destruct (Hgood _ Hin) as (HL & HU & HV). now apply Luv_to_uv_element_closed.
Qed.

(** One colour below the threshold L = 8 and one above it. *)
Lemma Luv_to_uv_formula_witness :
  let ts : list (Qc * Qc * Qc) :=
    [(Q2Qc 5, Q2Qc (1 # 5), Q2Qc (2 # 5)); (Q2Qc 50, Q2Qc 10, Q2Qc (-3))] in
  Luv_to_uv (of_triples [2] ts)
  = Ok (of_pairs [2] (map (fun t => let '(L, u, v) := t in
                                    ((u / ($13 * L) + u_r)%num,
                                     (v / ($13 * L) + v_r)%num)) ts)).
Proof.
  intros ts.
  assert (Hnz : forall a : Qc, Qeq_bool (this a) 0 = false -> a <> ($0)%num).
  { intros a Ha E. rewrite E in Ha. vm_compute in Ha. discriminate. }
  apply (@Luv_to_uv_formula [2] ts eq_refl).
  repeat constructor; apply Hnz; reflexivity.
Defined.

(* ===================================================================== *)
(** * Normalising a spectrum: the edges                                   *)
(* ===================================================================== *)

Section NormalizeEdges.
Context {W A : Type} `{Number W} `{Number A}.
Hypothesis laws : OrderLaws W.
Hypothesis low_edge : isnan (of_int 400 : W) = false.
Hypothesis high_edge : isnan (of_int 700 : W) = false.

(** With no sample in the band the slice is empty and the reduction has
    nothing to start from. *)
Lemma normalize_spectrum_no_band (ws : list W) (vs : list A)
  (meta : list (string * string)) :
  length ws = length vs ->
  StronglySorted (fun x y => leb x y = true) ws ->
  band_values in_visible_band ws vs = [] ->
  normalize_spectrum
    (Spectrum.make (mk_ndarray [length ws] ws) (mk_ndarray [length ws] vs) meta)
  = Raise (ValueError
             "zero-size array to reduction operation maximum which has no identity").
Proof.
  intros Hl Hs Hband. unfold normalize_spectrum.
  cbn [Spectrum.wavelengths Spectrum.values].
  rewrite !(np_searchsorted_sorted _ laws Hs). cbn [bind].
  unfold getslice. cbn [shape data bind size_of fold_right].
  pose proof (prefix_len_le (fun w => npy_lt w (of_int 400)) ws) as Hlow.
  pose proof (prefix_len_le (fun w => npy_lt w (of_int 700)) ws) as Hhigh.
  rewrite (Nat.min_l _ _ Hlow), (Nat.min_l _ _ Hhigh), !Nat.mul_1_r.
  rewrite (visible_slice laws low_edge high_edge vs Hl Hs).
  unfold np_max. cbn [data]. rewrite Hband. reflexivity.
Qed.

(** No wavelength in the band, no value of the band. *)
Lemma band_values_none (band : W -> bool) (ws : list W) (vs : list A) :
  Forall (fun w => band w = false) ws -> band_values band ws vs = [].
Proof.
  unfold band_values. revert vs.
  induction ws as [|w ws IH]; intros vs Hall; [reflexivity|].
  destruct vs as [|v vs]; [reflexivity|].
  inversion Hall as [|? ? Hw Hrest]; subst.
  cbn [combine filter fst]. rewrite Hw. now apply IH.
Qed.
End NormalizeEdges.

Lemma from_spectrum_normalizes_first {W A SPD Shape : Type} `{Number W} `{Number A}
  (colour : colour_module W A SPD Shape) (spectrum : Spectrum.t W A)
  (e : exn) (g : globals) :
  in_globals "colour" g = true ->
  normalize_spectrum spectrum = Raise e ->
  CIEXYZ.from_spectrum colour spectrum g = (Raise e, g)
  /\ CIELUV.from_spectrum colour spectrum g = (Raise e, g).
Proof.
  intros Hg He.
  assert (E : CIEXYZ.from_spectrum colour spectrum g = (Raise e, g)).
  { unfold CIEXYZ.from_spectrum, check_colour, mbind, get_globals, lift, ret.
    rewrite Hg. cbn [negb]. rewrite He. reflexivity. }
  split; [exact E|].
  unfold CIELUV.from_spectrum, mbind. rewrite E. reflexivity.
Qed.

(** X6.  A spectrum with no sample in the visible band cannot be
    normalised: for a Spectrum of paired 1-d arrays whose wavelengths are
    sorted ascending and none of which satisfies 400 <= w < 700 (the empty
    Spectrum included), [normalize_spectrum] raises the ValueError of
    numpy's maximum over an empty array, and with the colour package
    installed [CIEXYZ.from_spectrum] and [CIELUV.from_spectrum], which
    normalise first, raise it too before they call the package. *)
Theorem normalize_spectrum_empty_band {W A SPD Shape : Type}
  `{Number W} `{Number A}
  (colour : colour_module W A SPD Shape)
  (sp : Spectrum.t W A) (n : nat) (g : globals) :
  OrderLaws W ->
  isnan (of_int 400 : W) = false -> isnan (of_int 700 : W) = false ->
  paired sp -> shape (Spectrum.wavelengths sp) = [n] ->
  StronglySorted (fun x y => leb x y = true) (data (Spectrum.wavelengths sp)) ->
  Forall (fun w => in_visible_band w = false) (data (Spectrum.wavelengths sp)) ->
  let empty :=
    ValueError
      "zero-size array to reduction operation maximum which has no identity" in
  normalize_spectrum sp = Raise empty
  /\ (in_globals "colour" g = true ->
      CIEXYZ.from_spectrum colour sp g = (Raise empty, g)
      /\ CIELUV.from_spectrum colour sp g = (Raise empty, g)).
Proof.
  intros laws Hlow Hhigh (Hshape & Hw & Hv) Hn Hs Hnone empty.
  destruct sp as [[ws_shape ws] [vs_shape vs] meta].
  cbn [Spectrum.wavelengths Spectrum.values shape data] in *.
  unfold well_formed in Hw, Hv. cbn [shape data] in Hw, Hv.
  subst ws_shape vs_shape. cbn [size_of fold_right] in Hw, Hv.
  assert (Hl : length ws = length vs) by lia.
  assert (En : n = length ws) by lia. subst n.
  assert (E : normalize_spectrum
                (Spectrum.make (mk_ndarray [length ws] ws)
                               (mk_ndarray [length ws] vs) meta)
              = Raise empty).
  { apply (normalize_spectrum_no_band laws Hlow Hhigh vs meta Hl Hs).
    now apply band_values_none. }
  split; [exact E|].
  intros Hg. now apply from_spectrum_normalizes_first.
Qed.

(** An infrared spectrum: samples at 700, 800 and 900 nm. *)
Lemma normalize_spectrum_empty_band_witness :
  let sp : Spectrum.t float float :=
    Spectrum.__init__ (mk_ndarray [3] [700; 800; 900]%float)
                      (mk_ndarray [3] [1; 2; 3]%float) in
  let g := snd (import_module true) in
  let empty :=
    ValueError
      "zero-size array to reduction operation maximum which has no identity" in
  normalize_spectrum sp = Raise empty
  /\ CIELUV.from_spectrum colour_stub sp g = (Raise empty, g).
Proof.
  intros sp g empty.
  assert (Hp : paired sp) by (repeat split).
  assert (Hs : StronglySorted (fun x y : float => leb x y = true)
                              (data (Spectrum.wavelengths sp)))
    by (repeat constructor).
  assert (Hnone : Forall (fun w : float => in_visible_band w = false)
                         (data (Spectrum.wavelengths sp)))
    by (repeat constructor).
  destruct (@normalize_spectrum_empty_band float float unit unit _ _
              colour_stub sp 3 g float_OrderLaws eq_refl eq_refl Hp eq_refl
              Hs Hnone) as [E Hc].
  split; [exact E|]. exact (proj2 (Hc eq_refl)).
Defined.

(** A zero of binary64 is a number. *)
Lemma float_zero_number (v : float) : PrimFloat.eqb v 0 = true -> isnan v = false.
Proof.
  rewrite float_is_zero_spec, float_isnan_spec.
  destruct (Prim2SF v); intros E; try discriminate E; reflexivity.
Qed.

(** X7.  A spectrum that is dark in the visible band is not rejected: for a
    Spectrum of binary64 values, paired with sorted wavelengths some of
    which lie in 400 <= w < 700, whose values at those wavelengths are all
    zero, [normalize_spectrum] returns, and every value of the result is
    the quotient of the input value by a zero: NaN where the input value is
    zero or NaN, plus or minus infinity everywhere else. *)
Theorem normalize_spectrum_dark_band {W : Type} `{Number W}
  (sp : Spectrum.t W float) (n : nat) :
  OrderLaws W ->
  isnan (of_int 400 : W) = false -> isnan (of_int 700 : W) = false ->
  paired sp -> shape (Spectrum.wavelengths sp) = [n] ->
  StronglySorted (fun x y => leb x y = true) (data (Spectrum.wavelengths sp)) ->
  band_values in_visible_band (data (Spectrum.wavelengths sp))
              (data (Spectrum.values sp)) <> [] ->
  Forall (fun v => PrimFloat.eqb v 0 = true)
         (band_values in_visible_band (data (Spectrum.wavelengths sp))
                      (data (Spectrum.values sp))) ->
  exists scaled : list float,
    normalize_spectrum sp
    = Ok (Spectrum.__init__ (Spectrum.wavelengths sp) (mk_ndarray [n] scaled))
    /\ Forall2 zero_quotient (data (Spectrum.values sp)) scaled.
Proof.
  intros laws Hlow Hhigh (Hshape & Hw & Hv) Hn Hs Hband Hdark.
  destruct sp as [[ws_shape ws] [vs_shape vs] meta].
  cbn [Spectrum.wavelengths Spectrum.values shape data] in *.
  unfold well_formed in Hw, Hv. cbn [shape data] in Hw, Hv.
  subst ws_shape vs_shape. cbn [size_of fold_right] in Hw, Hv.
  assert (Hl : length ws = length vs) by lia.
  assert (En : n = length ws) by lia. subst n.
  destruct (band_values in_visible_band ws vs) as [|v0 rest] eqn:Eband;
    [contradiction|].
  set (peak := fold_left scalar_max rest v0).
  assert (Hpeak : PrimFloat.eqb peak 0 = true).
  { rewrite Forall_forall in Hdark. apply Hdark.
    apply (fold_scalar_max float_OrderLaws).
    intros v Hin. apply float_zero_number. now apply Hdark. }
  exists (map (fun v => div v peak) vs). split.
  - apply (normalize_spectrum_sorted laws Hlow Hhigh vs meta Hl Hs).
    rewrite Eband. reflexivity.
  - clear -Hpeak. induction vs as [|v vs IH]; constructor; [|exact IH].
    exact (float_zero_quotient v Hpeak).
Qed.

(** Light only outside the band: zero at 400 and 550 nm, 3 at 720 nm. *)
Lemma normalize_spectrum_dark_band_witness :
  let sp : Spectrum.t float float :=
    Spectrum.__init__ (mk_ndarray [3] [400; 550; 720]%float)
                      (mk_ndarray [3] [0; 0; 3]%float) in
  exists scaled : list float,
    normalize_spectrum sp
    = Ok (Spectrum.__init__ (Spectrum.wavelengths sp) (mk_ndarray [3] scaled))
    /\ Forall2 zero_quotient (data (Spectrum.values sp)) scaled.
Proof.
  intros sp.
  assert (Hp : paired sp) by (repeat split).
  assert (Hs : StronglySorted (fun x y : float => leb x y = true)
                              (data (Spectrum.wavelengths sp)))
    by (repeat constructor).
  assert (Hb : band_values in_visible_band (data (Spectrum.wavelengths sp))
                           (data (Spectrum.values sp)) <> [])
    by (vm_compute; discriminate).
  assert (Hd : Forall (fun v => PrimFloat.eqb v 0 = true)
                      (band_values in_visible_band
                                   (data (Spectrum.wavelengths sp))
                                   (data (Spectrum.values sp))))
    by (repeat constructor).
  exact (@normalize_spectrum_dark_band float _ sp 3 float_OrderLaws
           eq_refl eq_refl Hp eq_refl Hs Hb Hd).
Defined.

(* ===================================================================== *)
(** * The unit peak                                                       *)
(* ===================================================================== *)

Lemma Qc_leb_le (a b : Qc) : leb a b = true <-> (a <= b)%Qc.
Proof.
  cbn [leb Qc_Number]. rewrite Qcle_alt.
  destruct (a ?= b)%Qc; split; intros E; try reflexivity; try discriminate;
    try (exfalso; now apply E).
Qed.

Lemma Qc_ltb_lt (a b : Qc) : ltb a b = true <-> (a < b)%Qc.
Proof.
  cbn [ltb Qc_Number]. rewrite Qclt_alt.
  destruct (a ?= b)%Qc; split; intros E; try reflexivity; discriminate.
Qed.

Lemma Qc_isnan (a : Qc) : isnan a = false.
Proof.
  unfold isnan. cbn [eqb Qc_Number].
  destruct (Qc_eq_dec a a) as [_|Hne]; [reflexivity|now elim Hne].
Qed.

Lemma Qc_div_mul (x p : Qc) : p <> 0%Qc -> (x / p * p)%Qc = x.
Proof.
  intros Hp. unfold Qcdiv. now rewrite <- Qcmult_assoc, Qcmult_inv_l, Qcmult_1_r.
Qed.

(** Dividing by a positive number keeps the order. *)
Lemma Qc_leb_div (a b p : Qc) :
  (0 < p)%Qc -> leb (div a p) (div b p) = leb a b.
Proof.
  intros Hp.
  assert (Hnz : p <> 0%Qc) by (intros E; subst p; discriminate Hp).
  apply eq_true_iff_eq. rewrite !Qc_leb_le. cbn [div Qc_Number]. split; intros Hle.
  - rewrite <- (Qc_div_mul a Hnz), <- (Qc_div_mul b Hnz).
    apply Qcmult_le_compat_r; [exact Hle | now apply Qclt_le_weak].
  - apply (Qcmult_lt_0_le_reg_r _ _ p Hp). now rewrite !Qc_div_mul.
Qed.

Lemma scalar_max_div (a v p : Qc) :
  (0 < p)%Qc ->
  scalar_max (div a p) (div v p) = div (scalar_max a v) p.
Proof.
  intros Hp. unfold scalar_max. rewrite !Qc_isnan, !orb_false_r.
  rewrite (Qc_leb_div v a Hp). now destruct (leb v a).
Qed.

Lemma fold_scalar_max_div (l : list Qc) (x p : Qc) :
  (0 < p)%Qc ->
  fold_left scalar_max (map (fun v => div v p) l) (div x p)
  = div (fold_left scalar_max l x) p.
Proof.
  intros Hp. revert x. induction l as [|v l IH]; intros x; [reflexivity|].
  cbn [map fold_left]. now rewrite (scalar_max_div x v Hp), IH.
Qed.

Lemma band_values_map {W B C : Type} (band : W -> bool) (f : B -> C)
  (ws : list W) (vs : list B) :
  band_values band ws (map f vs) = map f (band_values band ws vs).
Proof.
  unfold band_values. revert vs.
  induction ws as [|w ws IH]; intros vs; [reflexivity|].
  destruct vs as [|v vs]; [reflexivity|].
  cbn [map combine filter fst]. destruct (band w); cbn [map snd]; now rewrite IH.
Qed.

(** X8.  The unit peak.  In exact (rational) arithmetic, for a Spectrum
    paired with sorted wavelengths whose peak over the band 400 <= w < 700
    is positive, the Spectrum that [normalize_spectrum] returns has peak
    exactly 1 over that band, and normalising it again returns it
    unchanged. *)
Theorem normalize_spectrum_unit_peak {W : Type} `{Number W}
  (ws : list W) (vs : list Qc) (meta : list (string * string)) (peak : Qc) :
  OrderLaws W ->
  isnan (of_int 400 : W) = false -> isnan (of_int 700 : W) = false ->
  length ws = length vs ->
  StronglySorted (fun x y => leb x y = true) ws ->
  np_max (mk_ndarray [length (band_values in_visible_band ws vs)]
                     (band_values in_visible_band ws vs)) = Ok peak ->
  ltb (of_int 0) peak = true ->
  exists sp' : Spectrum.t W Qc,
    normalize_spectrum
      (Spectrum.make (mk_ndarray [length ws] ws) (mk_ndarray [length ws] vs) meta)
    = Ok sp'
    /\ Spectrum.wavelengths sp' = mk_ndarray [length ws] ws
    /\ np_max (mk_ndarray
                 [length (band_values in_visible_band ws
                                      (data (Spectrum.values sp')))]
                 (band_values in_visible_band ws (data (Spectrum.values sp'))))
       = Ok (of_int 1)
    /\ normalize_spectrum sp' = Ok sp'.
Proof.
  intros laws Hlow Hhigh Hl Hs Hpeak Hpos.
  apply Qc_ltb_lt in Hpos.
  assert (E0 : (of_int 0 : Qc) = 0%Qc) by (apply Qc_is_canon; reflexivity).
  assert (E1 : (of_int 1 : Qc) = 1%Qc) by (apply Qc_is_canon; reflexivity).
  rewrite E0 in Hpos.
  assert (Hnz : peak <> 0%Qc) by (intros E; subst peak; discriminate Hpos).
  set (scaled := map (fun v : Qc => div v peak) vs).
  assert (Hmax : np_max (mk_ndarray
                           [length (band_values in_visible_band ws scaled)]
                           (band_values in_visible_band ws scaled))
                 = Ok (of_int 1)).
  { subst scaled. rewrite band_values_map.
    unfold np_max in *. cbn [data] in *.
    destruct (band_values in_visible_band ws vs) as [|v0 rest]; [discriminate|].
    injection Hpeak as Hpeak. cbn [map].
    rewrite (fold_scalar_max_div rest v0 Hpos), Hpeak, E1.
    cbn [div Qc_Number]. unfold Qcdiv. now rewrite Qcmult_inv_r. }
  exists (Spectrum.make (mk_ndarray [length ws] ws)
                        (mk_ndarray [length ws] scaled) []).
  split; [|split; [|split]].
  - exact (normalize_spectrum_sorted laws Hlow Hhigh vs meta Hl Hs Hpeak).
  - reflexivity.
  - exact Hmax.
  - assert (Hl' : length ws = length scaled)
      by (subst scaled; now rewrite length_map).
    rewrite (normalize_spectrum_sorted laws Hlow Hhigh scaled [] Hl' Hs Hmax).
    do 3 f_equal. rewrite <- (map_id scaled) at 2. apply map_ext.
    intros v. rewrite E1. cbn [div Qc_Number]. unfold Qcdiv.
    assert (Einv : (/ 1)%Qc = 1%Qc) by (apply Qc_is_canon; reflexivity).
    now rewrite Einv, Qcmult_1_r.
Qed.

(** Five samples with the peak 4 at 550 nm; the value 8 at 700 nm is
    outside the band and becomes 2. *)
Lemma normalize_spectrum_unit_peak_witness :
  let ws := [380; 400; 550; 700; 720]%float in
  let vs := map (fun z => Q2Qc (inject_Z z)) [1; 2; 4; 8; 16]%Z in
  exists sp' : Spectrum.t float Qc,
    normalize_spectrum
      (Spectrum.make (mk_ndarray [5] ws) (mk_ndarray [5] vs) [])
    = Ok sp'
    /\ normalize_spectrum sp' = Ok sp'.
Proof.
  intros ws vs.
  assert (Hs : StronglySorted (fun x y : float => leb x y = true) ws)
    by (repeat constructor).
  assert (Hpeak : np_max (mk_ndarray [length (band_values in_visible_band ws vs)]
                                     (band_values in_visible_band ws vs))
                  = Ok (Q2Qc 4)).
  { unfold np_max. cbn [data].
    change (band_values in_visible_band ws vs) with [Q2Qc 2; Q2Qc 4].
    cbn [fold_left]. f_equal. }
  destruct (@normalize_spectrum_unit_peak float _ ws vs [] (Q2Qc 4)
              float_OrderLaws eq_refl eq_refl eq_refl Hs Hpeak eq_refl)
    as (sp' & E & _ & _ & Eagain).
  exists sp'. split; [exact E | exact Eagain].
Defined.

(* ===================================================================== *)
(** * From a Spectrum to a spectral power distribution                    *)
(* ===================================================================== *)

Lemma chunk_singletons {A : Type} (l : list A) :
  chunk 1 l (length l) = map (fun x => [x]) l.
Proof.
  induction l as [|x l IH]; [reflexivity|].
  cbn [length chunk firstn skipn map]. now rewrite IH.
Qed.

(** Iterating a 1-d array yields its elements as scalars. *)
Lemma iter_first_vector {A : Type} (l : list A) :
  iter_first (mk_ndarray [length l] l) = Ok (map scalar l).
Proof.
  unfold iter_first. cbn [shape data size_of fold_right].
  now rewrite chunk_singletons, map_map.
Qed.

Section SpectrumDict.
Context {W A : Type} `{Number W}.

(** A key equal to none of the dict is appended. *)
Lemma dict_set_new (k : W) (v : ndarray A) (d : list (W * ndarray A)) :
  (forall k' v', In (k', v') d -> eqb k' k = false) ->
  dict_set k v d = d ++ [(k, v)].
Proof.
  induction d as [|[k' v'] d IH]; intros Hnew; [reflexivity|].
  cbn [dict_set app]. rewrite (Hnew k' v') by (left; reflexivity).
  rewrite IH; [reflexivity|]. intros k2 v2 Hin. apply (Hnew k2 v2). now right.
Qed.

Lemma dict_of_pairs_distinct (ws : list W) (vs : list A)
  (d : list (W * ndarray A)) :
  ForallOrdPairs (fun a b => eqb a b = false) ws ->
  (forall k v w, In (k, v) d -> In w ws -> eqb k w = false) ->
  dict_of_pairs (combine (map scalar ws) (map scalar vs)) d
  = Ok (d ++ combine ws (map scalar vs)).
Proof.
  revert vs d. induction ws as [|w ws IH]; intros vs d Hws Hd.
  - cbn. now rewrite app_nil_r.
  - destruct vs as [|v vs]; [cbn; now rewrite app_nil_r|].
    inversion Hws as [|? ? Hw Hrest]; subst.
    cbn [map combine dict_of_pairs hashable_key scalar shape data bind].
    rewrite dict_set_new
      by (intros k' v' Hin; apply (Hd k' v' w Hin); left; reflexivity).
    rewrite IH.
    + now rewrite <- app_assoc.
    + exact Hrest.
    + intros k v0 w0 Hin Hw0. apply in_app_or in Hin as [Hin|[Hin|[]]].
      * apply (Hd k v0 w0 Hin). now right.
      * injection Hin as <- <-. rewrite Forall_forall in Hw. now apply Hw.
Qed.
End SpectrumDict.

(** X9.  [spd_from_spectrum] on 1-d arrays.  When no wavelength equals an
    earlier one, the call hands to [colour.SpectralPowerDistribution] the
    empty name and the mapping of each wavelength to its value, in the
    order of the Spectrum; [zip] stops at the shorter array, so samples
    without a partner are dropped without notice.  The function does not
    call [check_colour]: without the package it builds the mapping and then
    raises NameError. *)
Theorem spd_from_spectrum_pairs {W A SPD Shape : Type} `{Number W} `{Number A}
  (colour : colour_module W A SPD Shape)
  (ws : list W) (vs : list A) (meta : list (string * string)) (g : globals) :
  ForallOrdPairs (fun a b => eqb a b = false) ws ->
  let sp := Spectrum.make (mk_ndarray [length ws] ws)
                          (mk_ndarray [length vs] vs) meta in
  spectrum_dict sp = Ok (combine ws (map scalar vs))
  /\ spd_from_spectrum colour sp g
     = if in_globals "colour" g
       then (colour_SpectralPowerDistribution colour EmptyString
               (combine ws (map scalar vs)), g)
       else (Raise (NameError "name 'colour' is not defined"), g).
Proof.
  intros Hws sp.
  assert (E : spectrum_dict sp = Ok (combine ws (map scalar vs))).
  { unfold spectrum_dict, sp. cbn [Spectrum.wavelengths Spectrum.values].
    rewrite !iter_first_vector. cbn [bind].
    rewrite (dict_of_pairs_distinct vs [] Hws); [reflexivity|].
    intros k v w []. }
  split; [exact E|].
  unfold spd_from_spectrum, mbind, lift, load_global. rewrite E.
  destruct (in_globals "colour" g); reflexivity.
Qed.

(** Three wavelengths and two values: the sample at 600 nm is dropped. *)
Lemma spd_from_spectrum_pairs_witness :
  let sp : Spectrum.t float float :=
    Spectrum.make (mk_ndarray [3] [400; 500; 600]%float)
                  (mk_ndarray [2] [1; 2]%float) [] in
  spectrum_dict sp = Ok [(400%float, scalar 1%float); (500%float, scalar 2%float)].
Proof.
  intros sp.
  assert (Hws : ForallOrdPairs (fun a b : float => eqb a b = false)
                               [400; 500; 600]%float)
    by (repeat constructor).
  exact (proj1 (@spd_from_spectrum_pairs float float unit unit _ _ colour_stub
                  [400; 500; 600]%float [1; 2]%float [] [] Hws)).
Defined.

(** X10.  Wavelengths that are not a 1-d array cannot key the mapping: a
    0-d array cannot be iterated, and the rows of an array of two or more
    dimensions are arrays, which are not hashable.  [spd_from_spectrum]
    raises TypeError for them, whether or not the colour package is
    installed. *)
Theorem spd_from_spectrum_wavelength_rank {W A SPD Shape : Type}
  `{Number W} `{Number A}
  (colour : colour_module W A SPD Shape) (sp : Spectrum.t W A) (g : globals) :
  (shape (Spectrum.wavelengths sp) = [] ->
   spd_from_spectrum colour sp g
   = (Raise (TypeError "iteration over a 0-d array"), g))
  /\ (forall n m rest n' rest',
        shape (Spectrum.wavelengths sp) = S n :: m :: rest ->
        shape (Spectrum.values sp) = S n' :: rest' ->
        spd_from_spectrum colour sp g
        = (Raise (TypeError "unhashable type: 'numpy.ndarray'"), g)).
Proof.
  unfold spd_from_spectrum, mbind, lift, spectrum_dict, iter_first.
  split.
  - intros E. rewrite E. reflexivity.
  - intros n m rest n' rest' Ew Ev. rewrite Ew, Ev. reflexivity.
Qed.

(** A 2 x 2 grid of wavelengths. *)
Lemma spd_from_spectrum_wavelength_rank_witness :
  let sp : Spectrum.t float float :=
    Spectrum.make (mk_ndarray [2; 2] [400; 500; 600; 700]%float)
                  (mk_ndarray [2] [1; 2]%float) [] in
  spd_from_spectrum colour_stub sp (snd (import_module true))
  = (Raise (TypeError "unhashable type: 'numpy.ndarray'"),
     snd (import_module true)).
Proof.
  intros sp.
  exact (proj2 (@spd_from_spectrum_wavelength_rank float float unit unit _ _
                  colour_stub sp (snd (import_module true)))
               1 2 [] 1 [] eq_refl eq_refl).
Defined.

(* ===================================================================== *)
(** * L, u, v in and out of a CIELUV object                               *)
(* ===================================================================== *)

(** X11.  [CIELUV.from_XYZ] reads what [colour.XYZ_to_Luv] returns as
    (L, u, v), stores the three under [l], [u] and [v] although the
    constructor takes them as (u, v, l), and [to_uv] hands them to
    [colour.Luv_to_uv] as (L, u, v) again: the coordinates reach the
    package in the order it produced them. *)
Theorem CIELUV_keeps_coordinate_order {W A SPD Shape : Type}
  `{Number W} `{Number A}
  (colour : colour_module W A SPD Shape)
  (c : CIEXYZ.t A) (x y z : obj A) (L U V : A) (g : globals) :
  in_globals "colour" g = true ->
  colour_XYZ_to_Luv colour (CIEXYZ.x c, CIEXYZ.y c, CIEXYZ.z c)
  = Ok (mk_ndarray [3] [L; U; V]) ->
  CIELUV.from_XYZ colour (Some c) x y z g
  = (Ok (CIELUV.make (Some (scalar U)) (Some (scalar V)) (Some (scalar L))), g)
  /\ (luv <~ CIELUV.from_XYZ colour (Some c) x y z ;; CIELUV.to_uv colour luv) g
     = (colour_Luv_to_uv colour
          (Some (scalar L), Some (scalar U), Some (scalar V)), g).
Proof.
  intros Hg Hluv.
  assert (E : CIELUV.from_XYZ colour (Some c) x y z g
              = (Ok (CIELUV.make (Some (scalar U)) (Some (scalar V))
                                 (Some (scalar L))), g)).
  { unfold CIELUV.from_XYZ, CIELUV.from_XYZ_arguments, CIELUV.from_XYZ_convert,
      mbind, ret, lift, load_global.
    rewrite Hg, Hluv. reflexivity. }
  split; [exact E|].
  unfold mbind at 1. rewrite E.
  unfold CIELUV.to_uv, mbind, lift, load_global. rewrite Hg. reflexivity.
Qed.

(** With the stand-in package, whose [XYZ_to_Luv] returns (50, 0.25, 0.5). *)
Lemma CIELUV_keeps_coordinate_order_witness :
  let g := snd (import_module true) in
  let c : CIEXYZ.t float := CIEXYZ.__init__ None None None in
  CIELUV.from_XYZ colour_stub (Some c) None None None g
  = (Ok (CIELUV.make (Some (scalar 0.25%float)) (Some (scalar 0.5%float))
                     (Some (scalar 50%float))), g).
Proof.
  intros g c.
  exact (proj1 (@CIELUV_keeps_coordinate_order float float unit unit _ _
                  colour_stub c None None None 50%float 0.25%float 0.5%float g
                  eq_refl eq_refl)).
Defined.

(* ===================================================================== *)
(** * The spectral locus of the CIE 1976 plot                             *)
(* ===================================================================== *)

(** The locus is sampled every 10 nm from 400 nm up to 690 nm. *)
Lemma locus_wavelengths :
  np_arange 400 700 10
  = mk_ndarray [30] (map (fun i => (400 + 10 * Z.of_nat i)%Z) (seq 0 30)).
Proof. reflexivity. Qed.

(** X12.  [cie_1976_plot] cannot get past its spectral locus.  The call
    needs the colour package (NameError without it).  With it, when
    [colour.wavelength_to_XYZ] returns one XYZ triple for each of the 30
    wavelengths, [XYZ_to_uv] returns an array of shape (30, 2), and the
    statement [wvl_u, wvl_v = XYZ_to_uv(wvl_XYZ)], which iterates the first
    axis, finds 30 rows for its two targets and raises ValueError. *)
Theorem cie_1976_plot_locus_raises {A : Type} `{Number A}
  (colour_wavelength_to_XYZ : ndarray Z -> result (ndarray A))
  (ts : list (A * A * A)) (g : globals) :
  (in_globals "colour" g = false ->
   cie_1976_plot_locus colour_wavelength_to_XYZ g
   = (Raise (NameError "name 'colour' is not defined"), g))
  /\ (in_globals "colour" g = true ->
      length ts = 30 ->
      colour_wavelength_to_XYZ (np_arange 400 700 10) = Ok (of_triples [30] ts) ->
      cie_1976_plot_locus colour_wavelength_to_XYZ g
      = (Raise (ValueError "too many values to unpack (expected 2)"), g)).
Proof.
  unfold cie_1976_plot_locus, mbind, lift, load_global. split.
  - intros Hg. rewrite Hg. reflexivity.
  - intros Hg Hts Hxyz. rewrite Hg, Hxyz.
    rewrite (@XYZ_to_uv_elements A _ [30] ts) by (rewrite Hts; reflexivity).
    unfold iter_first, of_pairs, of_rows. cbn [shape data app].
    destruct (chunk (size_of [2]) (flat_map row2 (map XYZ_to_uv_element ts)) 30)
      as [|r0 [|r1 [|r2 rows]]] eqn:Erows;
      try (apply (f_equal (@length _)) in Erows;
           rewrite chunk_length in Erows; discriminate Erows).
    reflexivity.
Qed.

(** The package returning the triple (1, 1, 1) at every wavelength. *)
Lemma cie_1976_plot_locus_raises_witness :
  cie_1976_plot_locus
    (fun wvl : ndarray Z =>
       Ok (of_triples [30] (map (fun _ => (1, 1, 1)%float) (data wvl))))
    (snd (import_module true))
  = (Raise (ValueError "too many values to unpack (expected 2)"),
     snd (import_module true)).
Proof.
  exact (proj2 (@cie_1976_plot_locus_raises float _
                  (fun wvl : ndarray Z =>
                     Ok (of_triples [30]
                           (map (fun _ => (1, 1, 1)%float) (data wvl))))
                  (map (fun _ => (1, 1, 1)%float) (data (np_arange 400 700 10)))
                  (snd (import_module true)))
               eq_refl eq_refl eq_refl).
Defined.

(* ===================================================================== *)
(** * Arrays too short for a conversion                                   *)
(* ===================================================================== *)

Lemma getitem_last_scalar {A : Type} (a : ndarray A) (k : nat) :
  shape a = [] ->
  getitem_last a k = Raise (IndexError "too many indices for array").
Proof. intros E. unfold getitem_last. rewrite E. reflexivity. Qed.

Lemma getitem_last_short {A : Type} (a : ndarray A) (s : list nat) (n k : nat) :
  shape a = s ++ [n] -> n <= k ->
  getitem_last a k = Raise (IndexError "index is out of bounds for axis").
Proof.
  intros E Hk. unfold getitem_last. rewrite E, rev_app_distr. cbn [rev app].
  destruct (Nat.ltb_spec k n); [lia | reflexivity].
Qed.

Lemma getitem_last_in_range {A : Type} (a : ndarray A) (s : list nat) (n k : nat) :
  shape a = s ++ [n] -> k < n -> exists r, getitem_last a k = Ok r.
Proof.
  intros E Hk. unfold getitem_last. rewrite E, rev_app_distr. cbn [rev app].
  destruct (Nat.ltb_spec k n); [eexists; reflexivity | lia].
Qed.

(** Reads the components 0, 1, ... of the trailing axis in turn: the first
    one out of range raises. *)
Ltac read_components E n :=
  repeat match goal with
    | |- context [getitem_last ?a ?k] =>
        first
          [ rewrite (@getitem_last_short _ a _ n k E) by lia; cbn [bind]
          | let r := fresh "r" in
            let Er := fresh "Er" in
            destruct (@getitem_last_in_range _ a _ n k E) as [r Er]; [lia|];
            rewrite Er; cbn [bind] ]
    end.

(** X13.  An input without three components raises IndexError.  On a 0-d
    array, and on an array whose trailing axis is shorter than 3, each of
    [XYZ_to_xyY], [XYZ_to_xy], [XYZ_to_uv], [xyY_to_XYZ], [Luv_to_XYZ] and
    [Luv_to_uv] raises IndexError at the first component it cannot read,
    before any arithmetic; so does [Luv_uv_to_xy] when the trailing axis is
    shorter than 2. *)
Theorem short_input_raises_IndexError {A : Type} `{Number A} `{Power A}
  (a : ndarray A) :
  (shape a = [] ->
   let e := IndexError "too many indices for array" in
   XYZ_to_xyY a = Raise e /\ XYZ_to_xy a = Raise e /\ XYZ_to_uv a = Raise e
   /\ xyY_to_XYZ a = Raise e /\ Luv_to_XYZ a = Raise e /\ Luv_to_uv a = Raise e
   /\ Luv_uv_to_xy a = Raise e)
  /\ (forall s n, shape a = s ++ [n] -> n < 3 ->
      let e := IndexError "index is out of bounds for axis" in
      XYZ_to_xyY a = Raise e /\ XYZ_to_xy a = Raise e /\ XYZ_to_uv a = Raise e
      /\ xyY_to_XYZ a = Raise e /\ Luv_to_XYZ a = Raise e
      /\ Luv_to_uv a = Raise e
      /\ (n < 2 -> Luv_uv_to_xy a = Raise e)).
Proof.
  split.
  - intros E e.
    unfold XYZ_to_xy, Luv_to_uv, XYZ_to_xyY, XYZ_to_uv, xyY_to_XYZ, Luv_to_XYZ,
      Luv_uv_to_xy.
    rewrite !(getitem_last_scalar a _ E). cbn [bind]. repeat split.
  - intros s n E Hn e.
    unfold XYZ_to_xy, Luv_to_uv, XYZ_to_xyY, XYZ_to_uv, xyY_to_XYZ, Luv_to_XYZ,
      Luv_uv_to_xy.
    destruct n as [|[|[|n]]]; [| | |lia];
      repeat split; try intros Hn2; try lia;
      match type of E with _ = _ ++ [?n] => read_components E n end;
      reflexivity.
Qed.

(** A pair handed to conversions that read triples. *)
Lemma short_input_raises_IndexError_witness :
  let a : ndarray Qc := mk_ndarray [2] [Q2Qc (1 # 4); Q2Qc (1 # 2)] in
  XYZ_to_uv a = Raise (IndexError "index is out of bounds for axis").
Proof.
  intros a.
  destruct (@short_input_raises_IndexError Qc _ _ a) as [_ Hshort].
  destruct (Hshort [] 2 eq_refl (Nat.lt_succ_diag_r 2)) as (_ & _ & E & _).
  exact E.
Defined.

(** Multiplying by a positive number keeps the order. *)
Lemma Qc_leb_mul (a b c : Qc) :
  (0 < c)%Qc -> leb (mul a c) (mul b c) = leb a b.
Proof.
  intros Hc. apply eq_true_iff_eq. rewrite !Qc_leb_le. cbn [mul Qc_Number].
  split; intros Hle.
  - now apply (Qcmult_lt_0_le_reg_r _ _ c Hc).
  - apply Qcmult_le_compat_r; [exact Hle | now apply Qclt_le_weak].
Qed.

Lemma fold_scalar_max_mul (l : list Qc) (x c : Qc) :
  (0 < c)%Qc ->
  fold_left scalar_max (map (fun v => mul v c) l) (mul x c)
  = mul (fold_left scalar_max l x) c.
Proof.
  intros Hc. revert x. induction l as [|v l IH]; intros x; [reflexivity|].
  cbn [map fold_left].
  assert (E : scalar_max (mul x c) (mul v c) = mul (scalar_max x v) c).
  { unfold scalar_max. rewrite !Qc_isnan, !orb_false_r.
    rewrite (Qc_leb_mul v x Hc). now destruct (leb v x). }
  now rewrite E, IH.
Qed.

(** X14.  The unit of the values does not matter.  In exact (rational)
    arithmetic, for a Spectrum paired with sorted wavelengths whose peak
    over the band 400 <= w < 700 is not zero, multiplying every value by
    one positive factor does not change what [normalize_spectrum]
    returns. *)
Theorem normalize_spectrum_scale_invariant {W : Type} `{Number W}
  (ws : list W) (vs : list Qc) (meta : list (string * string)) (peak c : Qc) :
  OrderLaws W ->
  isnan (of_int 400 : W) = false -> isnan (of_int 700 : W) = false ->
  length ws = length vs ->
  StronglySorted (fun x y => leb x y = true) ws ->
  np_max (mk_ndarray [length (band_values in_visible_band ws vs)]
                     (band_values in_visible_band ws vs)) = Ok peak ->
  peak <> of_int 0 ->
  ltb (of_int 0) c = true ->
  normalize_spectrum
    (Spectrum.make (mk_ndarray [length ws] ws)
                   (mk_ndarray [length ws] (map (fun v => mul v c) vs)) meta)
  = normalize_spectrum
      (Spectrum.make (mk_ndarray [length ws] ws) (mk_ndarray [length ws] vs) meta)
  /\ normalize_spectrum
       (Spectrum.make (mk_ndarray [length ws] ws) (mk_ndarray [length ws] vs) meta)
     = Ok (Spectrum.make (mk_ndarray [length ws] ws)
                         (mk_ndarray [length ws] (map (fun v => div v peak) vs))
                         []).
Proof.
  intros laws Hlow Hhigh Hl Hs Hpeak Hnz Hc.
  apply Qc_ltb_lt in Hc.
  assert (E0 : (of_int 0 : Qc) = 0%Qc) by (apply Qc_is_canon; reflexivity).
  rewrite E0 in Hc, Hnz.
  assert (Hcz : c <> 0%Qc) by (intros E; subst c; discriminate Hc).
  set (scaled := map (fun v : Qc => mul v c) vs).
  assert (Hl' : length ws = length scaled)
    by (subst scaled; now rewrite length_map).
  assert (Hmax : np_max (mk_ndarray
                           [length (band_values in_visible_band ws scaled)]
                           (band_values in_visible_band ws scaled))
                 = Ok (mul peak c)).
  { subst scaled. rewrite band_values_map.
    unfold np_max in *. cbn [data] in *.
    destruct (band_values in_visible_band ws vs) as [|v0 rest]; [discriminate|].
    injection Hpeak as Hpeak. cbn [map].
    now rewrite (fold_scalar_max_mul rest v0 Hc), Hpeak. }
  rewrite (normalize_spectrum_sorted laws Hlow Hhigh scaled meta Hl' Hs Hmax).
  rewrite (normalize_spectrum_sorted laws Hlow Hhigh vs meta Hl Hs Hpeak).
  split; [|reflexivity].
  do 3 f_equal. subst scaled. rewrite map_map. apply map_ext. intros v.
  cbn [mul div Qc_Number]. field. split; assumption.
Qed.

(** The values 1, 2, 4, 8, 16 and three times those values. *)
Lemma normalize_spectrum_scale_invariant_witness :
  let ws := [380; 400; 550; 700; 720]%float in
  let vs := map (fun z => Q2Qc (inject_Z z)) [1; 2; 4; 8; 16]%Z in
  normalize_spectrum
    (Spectrum.make (mk_ndarray [5] ws)
                   (mk_ndarray [5] (map (fun v => mul v (Q2Qc 3)) vs)) [])
  = normalize_spectrum
      (Spectrum.make (mk_ndarray [5] ws) (mk_ndarray [5] vs) []).
Proof.
  intros ws vs.
  assert (Hs : StronglySorted (fun x y : float => leb x y = true) ws)
    by (repeat constructor).
  assert (Hpeak : np_max (mk_ndarray [length (band_values in_visible_band ws vs)]
                                     (band_values in_visible_band ws vs))
                  = Ok (Q2Qc 4)).
  { unfold np_max. cbn [data].
    change (band_values in_visible_band ws vs) with [Q2Qc 2; Q2Qc 4].
    cbn [fold_left]. f_equal. }
  assert (Hnz : Q2Qc 4 <> of_int 0).
  { intros E. apply (f_equal this) in E. vm_compute in E. discriminate E. }
  exact (proj1 (@normalize_spectrum_scale_invariant float _ ws vs [] (Q2Qc 4)
                  (Q2Qc 3) float_OrderLaws eq_refl eq_refl eq_refl Hs Hpeak
                  Hnz eq_refl)).
Defined.

(* ===================================================================== *)
(** * From a Spectrum to colour coordinates                               *)
(* ===================================================================== *)

(** X15.  What [CIEXYZ.from_spectrum] asks of the colour package.  For a
    Spectrum paired with sorted, pairwise different wavelengths some of
    which lie in the visible band, and with the package installed, the call
    builds the power distribution named by the empty string from the
    wavelengths and the values divided by the visible peak, aligns it with
    the shape SpectralShape(360, 780, 10), and makes a CIEXYZ of the three
    items that [spectral_to_XYZ] returns for the aligned distribution, in
    their order.  [CIELUV.from_spectrum] converts that CIEXYZ with
    [colour.XYZ_to_Luv]. *)
Theorem from_spectrum_pipeline {W A SPD Shape : Type} `{Number W} `{Number A}
  (colour : colour_module W A SPD Shape)
  (ws : list W) (vs : list A) (meta : list (string * string)) (peak : A)
  (spd aligned : SPD) (standard_wavelengths : Shape) (X Y Z L U V : A)
  (g : globals) :
  OrderLaws W ->
  isnan (of_int 400 : W) = false -> isnan (of_int 700 : W) = false ->
  length ws = length vs ->
  StronglySorted (fun x y => leb x y = true) ws ->
  ForallOrdPairs (fun a b => eqb a b = false) ws ->
  np_max (mk_ndarray [length (band_values in_visible_band ws vs)]
                     (band_values in_visible_band ws vs)) = Ok peak ->
  in_globals "colour" g = true ->
  colour_SpectralPowerDistribution colour EmptyString
    (combine ws (map scalar (map (fun v => div v peak) vs))) = Ok spd ->
  colour_SpectralShape colour 360 780 10 = Ok standard_wavelengths ->
  colour_align colour spd standard_wavelengths = Ok aligned ->
  colour_spectral_to_XYZ colour aligned = Ok (mk_ndarray [3] [X; Y; Z]) ->
  let sp := Spectrum.make (mk_ndarray [length ws] ws)
                          (mk_ndarray [length ws] vs) meta in
  CIEXYZ.from_spectrum colour sp g
  = (Ok (CIEXYZ.__init__ (Some (scalar X)) (Some (scalar Y)) (Some (scalar Z))),
     g)
  /\ (colour_XYZ_to_Luv colour
        (Some (scalar X), Some (scalar Y), Some (scalar Z))
      = Ok (mk_ndarray [3] [L; U; V]) ->
      CIELUV.from_spectrum colour sp g
      = (Ok (CIELUV.make (Some (scalar U)) (Some (scalar V)) (Some (scalar L))),
         g)).
Proof.
  intros laws Hlow Hhigh Hl Hs Hdistinct Hpeak Hg Hspd Hshape Halign Hxyz sp.
  assert (E : CIEXYZ.from_spectrum colour sp g
              = (Ok (CIEXYZ.__init__ (Some (scalar X)) (Some (scalar Y))
                                     (Some (scalar Z))), g)).
  { unfold CIEXYZ.from_spectrum, check_colour, mbind, get_globals, lift, ret.
    rewrite Hg. cbn [negb]. subst sp.
    rewrite (normalize_spectrum_sorted laws Hlow Hhigh vs meta Hl Hs Hpeak).
    unfold spd_from_spectrum, mbind, lift, load_global. rewrite Hg.
    unfold spectrum_dict. cbn [Spectrum.wavelengths Spectrum.values].
    rewrite iter_first_vector.
    replace (length ws) with (length (map (fun v => div v peak) vs))
      by (rewrite length_map; now symmetry).
    rewrite iter_first_vector. cbn [bind].
    rewrite (dict_of_pairs_distinct _ [] Hdistinct) by (intros k v w []).
    cbn [app].
    repeat first [ rewrite Hg | rewrite Hspd | rewrite Hshape | rewrite Halign
                 | rewrite Hxyz | progress cbn beta iota ].
    reflexivity. }
  split; [exact E|].
  intros Hluv. unfold CIELUV.from_spectrum, mbind at 1. rewrite E.
  unfold CIELUV.from_XYZ, CIELUV.from_XYZ_arguments, CIELUV.from_XYZ_convert,
    mbind, ret, lift, load_global.
  cbn [CIEXYZ.x CIEXYZ.y CIEXYZ.z].
  rewrite Hg.
  match goal with
  | |- context [colour_XYZ_to_Luv colour ?t] =>
      replace (colour_XYZ_to_Luv colour t) with (Ok (mk_ndarray [3] [L; U; V]))
        by (symmetry; exact Hluv)
  end.
  reflexivity.
Qed.

(** Three samples and the stand-in package. *)
Lemma from_spectrum_pipeline_witness :
  let sp : Spectrum.t float float :=
    Spectrum.make (mk_ndarray [3] [380; 550; 720]%float)
                  (mk_ndarray [3] [1; 4; 2]%float) [] in
  let g := snd (import_module true) in
  CIEXYZ.from_spectrum colour_stub sp g
  = (Ok (CIEXYZ.__init__ (Some (scalar 0.25%float)) (Some (scalar 0.5%float))
                         (Some (scalar 0.25%float))), g).
Proof.
  intros sp g.
  assert (Hs : StronglySorted (fun x y : float => leb x y = true)
                              [380; 550; 720]%float)
    by (repeat constructor).
  assert (Hd : ForallOrdPairs (fun a b : float => eqb a b = false)
                              [380; 550; 720]%float)
    by (repeat constructor).
  assert (Hpeak : np_max (mk_ndarray
                            [length (band_values in_visible_band
                                       [380; 550; 720]%float [1; 4; 2]%float)]
                            (band_values in_visible_band
                                       [380; 550; 720]%float [1; 4; 2]%float))
                  = Ok 4%float) by reflexivity.
  assert (Hg : in_globals "colour" g = true) by reflexivity.
  pose proof (@from_spectrum_pipeline float float unit unit _ _ colour_stub
                [380; 550; 720]%float [1; 4; 2]%float [] 4%float tt tt tt
                0.25%float 0.5%float 0.25%float 50%float 0.25%float 0.5%float
                g float_OrderLaws) as Hpipe.
  specialize (Hpipe eq_refl eq_refl eq_refl Hs Hd Hpeak Hg).
  specialize (Hpipe eq_refl eq_refl eq_refl eq_refl).
  exact (proj1 Hpipe).
Defined.
